(** * KineticParticle-App: the particle scene and the gesture / voice handlers

    A shallow embedding of [src/components/ParticleScene.tsx] (the per-frame
    motion update) and of the [App] component's [analyzeGesture],
    [predictWebcam] and [handleToolCalls], with the properties the
    specification states about them.

    JavaScript numbers are idealised as real numbers: [+], [-], [*], [/],
    [Math.sin], [Math.cos] and [Math.sqrt] are the operations of [R], and [%]
    is the truncated remainder.  Rounding, infinities and NaN are outside the
    model. *)

From Stdlib Require Import Reals Lra Lia ZArith List String Bool.
From Stdlib Require Import Permutation Sorted.
Import ListNotations.

Open Scope R_scope.

(** ** JavaScript values and operations *)

Module Js.

(** [a < b] on numbers, as a boolean. *)
Definition ltb (a b : R) : bool := if Rlt_dec a b then true else false.

(** [Math.trunc]: the integer part, rounded toward zero. *)
Definition trunc (a : R) : Z :=
  if Rle_dec 0 a then Int_part a else (- Int_part (- a))%Z.

(** [a % b]: the remainder of the truncated division; it has the sign of
    the dividend. *)
Definition rem (a b : R) : R := a - b * IZR (trunc (a / b)).

(** A dynamically typed value, as a tool call's arguments carry them. *)
#[warnings="-register-all"]
Inductive value : Type :=
| Undefined
| Null
| Bool (b : bool)
| Num (r : R)
| Str (s : string)
| Obj (fields : list (string * value)).

Inductive error : Type :=
| TypeError.

(** The outcome of running a piece of code: a value or a thrown error. *)
Inductive completion (A : Type) : Type :=
| Return (a : A)
| Throw (e : error).
Arguments Return {A} a.
Arguments Throw {A} e.

Definition bind {A B} (c : completion A) (k : A -> completion B)
  : completion B :=
  match c with
  | Return a => k a
  | Throw e => Throw e
  end.

Fixpoint lookup (k : string) (fields : list (string * value)) : value :=
  match fields with
  | [] => Undefined
  | (k', v) :: rest => if String.eqb k k' then v else lookup k rest
  end.

(** The property [k] of a value that has properties: the field of an
    object, [undefined] on a primitive. *)
Definition prop (v : value) (k : string) : value :=
  match v with
  | Obj fields => lookup k fields
  | _ => Undefined
  end.

(** [v.k]: reading a property throws on [undefined] and [null]. *)
Definition get (v : value) (k : string) : completion value :=
  match v with
  | Undefined | Null => Throw TypeError
  | _ => Return (prop v k)
  end.

End Js.

(** ** types.ts *)

(** [enum ParticleMode]: a string enum; at run time a mode is its string. *)
Module ParticleMode.
Definition FLOAT : string := "float".
Definition GATHER : string := "gather".
Definition SWIRL : string := "swirl".
Definition EXPLODE : string := "explode".
Definition RAIN : string := "rain".

(** The values of the enum. *)
Definition values : list string := [FLOAT; GATHER; SWIRL; EXPLODE; RAIN].
End ParticleMode.

(** [interface ParticleConfig], as declared. *)
Record ParticleConfig : Type := mkConfig {
  mode : string;
  color : string;
  speed : R;
  count : nat;
  size : R
}.

(** ** components/ParticleScene.tsx *)

Module Scene.
Import ParticleMode.

Record Vector3 : Type := vec3 { vx : R; vy : R; vz : R }.

(** What [updateMatrix] composes into [matrix]: position, Euler rotation
    and scale. *)
Record Matrix4 : Type := compose {
  m_position : Vector3;
  m_rotation : Vector3;
  m_scale : Vector3
}.

(** [THREE.Object3D], the fields the scene uses. *)
Record Object3D : Type := mkObject3D {
  position : Vector3;
  rotation : Vector3;
  scale : Vector3;
  matrix : Matrix4
}.

(** One entry of [particles]; [originalColor] is never read. *)
Record Particle : Type := mkParticle {
  t : R;
  factor : R;
  pSpeed : R;
  x : R;
  y : R;
  z : R;
  mx : R;
  my : R;
  mz : R
}.

(** The body of the [useMemo] loop: [r k] is the [k]-th value
    [Math.random()] returns. *)
Definition newParticle (r : nat -> R) (i : nat) : Particle :=
  let k := (6 * i)%nat in
  {| t := r k * 100;
     factor := 20 + r (k + 1)%nat * 100;
     pSpeed := 0.01 + r (k + 2)%nat / 200;
     x := r (k + 3)%nat * 100 - 50;
     y := r (k + 4)%nat * 100 - 50;
     z := r (k + 5)%nat * 100 - 50;
     mx := 0; my := 0; mz := 0 |}.

Definition initParticles (r : nat -> R) (n : nat) : list Particle :=
  map (newParticle r) (seq 0 n).

(** What [useMemo(..., [config.count])] yields on a re-render with the
    configuration [next], after a render with [prev] that held [ps]: the
    array is rebuilt only when [count] changed. *)
Definition useMemo_particles (r : nat -> R) (prev next : ParticleConfig)
           (ps : list Particle) : list Particle :=
  if Nat.eqb (count next) (count prev) then ps
  else initParticles r (count next).

(** The drift state [(mx, my, mz)] of a particle and its magnitude. *)
Definition drift (p : Particle) : Vector3 := vec3 (mx p) (my p) (mz p).

Definition length (v : Vector3) : R :=
  sqrt (vx v * vx v + vy v * vy v + vz v * vz v).

(** [new THREE.Object3D()]. *)
Definition newObject3D : Object3D :=
  {| position := vec3 0 0 0;
     rotation := vec3 0 0 0;
     scale := vec3 1 1 1;
     matrix := compose (vec3 0 0 0) (vec3 0 0 0) (vec3 1 1 1) |}.

Definition set_position (d : Object3D) (p : Vector3) : Object3D :=
  {| position := p; rotation := rotation d; scale := scale d;
     matrix := matrix d |}.

Definition set_rotation (d : Object3D) (e : Vector3) : Object3D :=
  {| position := position d; rotation := e; scale := scale d;
     matrix := matrix d |}.

Definition set_rotation_y (d : Object3D) (a : R) : Object3D :=
  set_rotation d (vec3 (vx (rotation d)) a (vz (rotation d))).

Definition set_scale (d : Object3D) (s : Vector3) : Object3D :=
  {| position := position d; rotation := rotation d; scale := s;
     matrix := matrix d |}.

Definition setScalar (d : Object3D) (s : R) : Object3D :=
  set_scale d (vec3 s s s).

Definition updateMatrix (d : Object3D) : Object3D :=
  {| position := position d; rotation := rotation d; scale := scale d;
     matrix := compose (position d) (rotation d) (scale d) |}.

Definition set_t (p : Particle) (v : R) : Particle :=
  {| t := v; factor := factor p; pSpeed := pSpeed p;
     x := x p; y := y p; z := z p;
     mx := mx p; my := my p; mz := mz p |}.

Definition set_drift (p : Particle) (a b c : R) : Particle :=
  {| t := t p; factor := factor p; pSpeed := pSpeed p;
     x := x p; y := y p; z := z p;
     mx := a; my := b; mz := c |}.

(** The RAIN case's [newY]. *)
Definition rainY (y time speed : R) : R :=
  let fallSpeed := 50 * speed in
  let newY := y - Js.rem (time * fallSpeed) 100 in
  if Js.ltb newY (-50) then newY + 100 else newY.

(** The [switch (mode)] of the [forEach] callback: the particle and the
    scratch object after the matching case; no case matches a mode
    outside the enum, and the switch has no [default]. *)
Definition switchMode (mode : string) (speed time : R) (i : nat)
           (particle : Particle) (dummy : Object3D)
  : Particle * Object3D :=
  let x := x particle in
  let y := y particle in
  let z := z particle in
  if String.eqb mode FLOAT then
    let t := t particle + speed * 0.5 in
    let particle := set_t particle t in
    let a := cos t + sin (t * 1) / 10 in
    let b := sin t + cos (t * 2) / 10 in
    let s := cos t in
    let particle :=
      set_drift particle
        (mx particle + (x * a - mx particle) * 0.1)
        (my particle + (y * b - my particle) * 0.1)
        (mz particle + (z * s - mz particle) * 0.1) in
    (particle,
     set_position dummy
       (vec3 (x + sin (time + x) * 2)
             (y + cos (time + y) * 2)
             (z + sin (time + z) * 2)))
  else if String.eqb mode GATHER then
    let particle :=
      set_drift particle
        (mx particle + (0 - mx particle) * speed * 0.1)
        (my particle + (0 - my particle) * speed * 0.1)
        (mz particle + (0 - mz particle) * speed * 0.1) in
    (particle,
     set_position dummy
       (vec3 (x * 0.1 + sin (time * 10 + INR i) * 2)
             (y * 0.1 + cos (time * 10 + INR i) * 2)
             (z * 0.1)))
  else if String.eqb mode EXPLODE then
    (particle,
     set_position dummy
       (vec3 (x * (1 + sin time * 0.5 + 1.5))
             (y * (1 + cos time * 0.5 + 1.5))
             (z * (1 + sin (time * 0.5) * 0.5 + 1.5))))
  else if String.eqb mode SWIRL then
    let angle := time * speed * 2 + INR i * 0.01 in
    let radius := 15 + sin (time + INR i) * 5 in
    let dummy :=
      set_position dummy
        (vec3 (cos angle * radius)
              ((y + sin time * 10) * 0.5)
              (sin angle * radius)) in
    (particle, set_rotation_y dummy angle)
  else if String.eqb mode RAIN then
    let dummy := set_position dummy (vec3 x (rainY y time speed) z) in
    (particle, set_scale dummy (vec3 1 5 1))
  else
    (particle, dummy).

(** The [forEach] callback up to [dummy.updateMatrix()]. *)
Definition updateParticle (config : ParticleConfig) (time : R) (i : nat)
           (particle : Particle) (dummy : Object3D)
  : Particle * Object3D :=
  let '(particle, dummy) :=
    switchMode (mode config) (speed config) time i particle dummy in
  let dummy :=
    if negb (String.eqb (mode config) SWIRL)
       && negb (String.eqb (mode config) RAIN)
    then setScalar (set_rotation dummy (vec3 (sin time) (cos time) 0)) 1
    else dummy in
  let dummy :=
    if String.eqb (mode config) RAIN then dummy
    else setScalar dummy (size config) in
  (particle, updateMatrix dummy).

(** [setMatrixAt(i, m)]: a write past the end of the buffer is dropped. *)
Fixpoint setMatrixAt (buf : list (option Matrix4)) (i : nat) (m : Matrix4)
  : list (option Matrix4) :=
  match buf, i with
  | [], _ => []
  | _ :: rest, O => Some m :: rest
  | b :: rest, S i' => b :: setMatrixAt rest i' m
  end.

(** [THREE.InstancedMesh]: the instance matrices ([None] for a slot never
    written) and the upload flag. *)
Record InstancedMesh : Type := mkMesh {
  instanceMatrix : list (option Matrix4);
  needsUpdate : bool
}.

(** What a frame reads and writes: the particle array, the module-level
    scratch object shared by all particles and frames, and [meshRef]. *)
Record State : Type := mkState {
  particles : list Particle;
  dummy : Object3D;
  meshRef : option InstancedMesh
}.

(** [particles.forEach((particle, i) => ...)], from index [i] on. *)
Fixpoint forEach (config : ParticleConfig) (time : R) (i : nat)
         (ps : list Particle) (d : Object3D) (buf : list (option Matrix4))
  : list Particle * Object3D * list (option Matrix4) :=
  match ps with
  | [] => ([], d, buf)
  | p :: rest =>
      let '(p', d') := updateParticle config time i p d in
      let buf' := setMatrixAt buf i (matrix d') in
      let '(rest', d'', buf'') := forEach config time (S i) rest d' buf' in
      (p' :: rest', d'', buf'')
  end.

(** The [useFrame] callback; [time] is [state.clock.getElapsedTime()]. *)
Definition useFrame (config : ParticleConfig) (time : R) (s : State)
  : State :=
  match meshRef s with
  | None => s
  | Some mesh =>
      let '(ps, d, buf) :=
        forEach config time 0 (particles s) (dummy s)
                (instanceMatrix mesh) in
      {| particles := ps; dummy := d;
         meshRef := Some {| instanceMatrix := buf; needsUpdate := true |} |}
  end.

(** [n] frames under a constant configuration; [clock k] is the elapsed
    time read by the [k]-th frame. *)
Fixpoint frames (config : ParticleConfig) (clock : nat -> R) (n : nat)
         (s : State) : State :=
  match n with
  | O => s
  | S n' => useFrame config (clock n') (frames config clock n' s)
  end.

(** A run of frames, first frame first, each with the configuration of
    its render and the elapsed time it reads. *)
Fixpoint play (fs : list (ParticleConfig * R)) (s : State) : State :=
  match fs with
  | [] => s
  | (config, time) :: rest => play rest (useFrame config time s)
  end.

End Scene.

(** ** App.tsx *)

Module App.
Import ParticleMode.

(** The [config] state at run time. [handleToolCalls] stores [args.color]
    and [args.speed], which are typed [any], so these two fields hold
    whatever value a tool call carries. *)
Record GlobalConfig : Type := mkGlobal {
  mode : string;
  color : Js.value;
  speed : Js.value;
  count : nat;
  size : R
}.

(** The initial value of [useState<ParticleConfig>]. *)
Definition initialConfig : GlobalConfig :=
  {| mode := FLOAT; color := Js.Str "#00ffff"; speed := Js.Num 1;
     count := 2000; size := 1 |}.

(** The configuration as the scene's props, when it is well typed. *)
Definition toProps (c : GlobalConfig) : option ParticleConfig :=
  match color c, speed c with
  | Js.Str col, Js.Num sp => Some (mkConfig (mode c) col sp (count c) (size c))
  | _, _ => None
  end.

(** The functions passed to [setConfig]. Their bodies run when React
    processes the update, so [args.color] and [args.speed] are read then. *)
Inductive Updater : Type :=
| Size (v : R)                 (* prev => ({ ...prev, size: v }) *)
| Mode (v : string)            (* prev => ({ ...prev, mode: v }) *)
| ColorOf (args : Js.value)    (* prev => ({ ...prev, color: args.color }) *)
| SpeedOf (args : Js.value).   (* prev => ({ ...prev, speed: args.speed }) *)

Definition runUpdater (u : Updater) (prev : GlobalConfig)
  : Js.completion GlobalConfig :=
  match u with
  | Size v =>
      Js.Return {| mode := mode prev; color := color prev;
                   speed := speed prev; count := count prev; size := v |}
  | Mode v =>
      Js.Return {| mode := v; color := color prev;
                   speed := speed prev; count := count prev;
                   size := size prev |}
  | ColorOf args =>
      Js.bind (Js.get args "color") (fun v =>
      Js.Return {| mode := mode prev; color := v;
                   speed := speed prev; count := count prev;
                   size := size prev |})
  | SpeedOf args =>
      Js.bind (Js.get args "speed") (fun v =>
      Js.Return {| mode := mode prev; color := color prev;
                   speed := v; count := count prev; size := size prev |})
  end.

(** A log line: the literal part of the template string and the value
    interpolated into it. The timestamp is left out. *)
Record LogEntry : Type := mkLog {
  message : string * option Js.value;
  source : string
}.

(** One entry of [functionResponses]; [status] is [response.result.status]. *)
Record FunctionResponse : Type := mkResponse {
  r_id : Js.value;
  r_name : string;
  status : string
}.

(** What the handlers do to the world outside them, in order. *)
Inductive Effect : Type :=
| SetConfig (u : Updater)
| SetCurrentGesture (name : string)
| AddLog (entry : LogEntry)
| SendToolResponse (functionResponses : list FunctionResponse)
| RequestAnimationFrame.

(** A handler run: the effects it performed, and how it completed. *)
Definition M (A : Type) : Type := list Effect * Js.completion A.

Definition ret {A} (a : A) : M A := ([], Js.Return a).

Definition bind {A B} (m : M A) (k : A -> M B) : M B :=
  match m with
  | (es, Js.Return a) => let '(es', r) := k a in (es ++ es', r)
  | (es, Js.Throw e) => (es, Js.Throw e)
  end.

Definition emit (e : Effect) : M unit := ([e], Js.Return tt).

Definition lift {A} (c : Js.completion A) : M A := ([], c).

Notation "x <- c ;; k" := (bind c (fun x => k))
  (at level 61, c at next level, right associativity).
Notation "c ;;; k" := (bind c (fun _ => k))
  (at level 61, right associativity).

(** The React state the handlers write. *)
Record AppState : Type := mkApp {
  config : GlobalConfig;
  currentGesture : string;
  logs : list LogEntry
}.

(** [prev.slice(-n)]. *)
Definition slice_last {A} (n : nat) (l : list A) : list A :=
  skipn (List.length l - n) l.

(** React processing one queued effect on the state; the effects that are
    not state updates leave it alone. *)
Definition reduce (s : AppState) (e : Effect) : Js.completion AppState :=
  match e with
  | SetConfig u =>
      Js.bind (runUpdater u (config s)) (fun c =>
      Js.Return {| config := c; currentGesture := currentGesture s;
                   logs := logs s |})
  | SetCurrentGesture g =>
      Js.Return {| config := config s; currentGesture := g; logs := logs s |}
  | AddLog entry =>
      Js.Return {| config := config s; currentGesture := currentGesture s;
                   logs := slice_last 4 (logs s) ++ [entry] |}
  | SendToolResponse _ | RequestAnimationFrame => Js.Return s
  end.

Fixpoint reduceAll (s : AppState) (es : list Effect)
  : Js.completion AppState :=
  match es with
  | [] => Js.Return s
  | e :: rest => Js.bind (reduce s e) (fun s' => reduceAll s' rest)
  end.

(** *** Gestures *)

(** A landmark of the hand model. *)
Record NormalizedLandmark : Type := mkLandmark { x : R; y : R; z : R }.

(** [l.x] and [l.y] on an element read out of the landmark array, which is
    [undefined] past its end. *)
Definition get_x (l : option NormalizedLandmark) : M R :=
  match l with
  | Some p => ret (x p)
  | None => lift (Js.Throw Js.TypeError)
  end.

Definition get_y (l : option NormalizedLandmark) : M R :=
  match l with
  | Some p => ret (y p)
  | None => lift (Js.Throw Js.TypeError)
  end.

(** [tip.y < base.y]. *)
Definition isUp (tip base : option NormalizedLandmark) : M bool :=
  a <- get_y tip ;; b <- get_y base ;; ret (Js.ltb a b).

(** [analyzeGesture]; [config] and [currentGesture] are the values its
    closure sees. *)
Definition analyzeGesture (config : GlobalConfig) (currentGesture : string)
           (landmarks : list NormalizedLandmark) : M unit :=
  let thumbTip := nth_error landmarks 4 in
  let indexTip := nth_error landmarks 8 in
  let middleTip := nth_error landmarks 12 in
  let ringTip := nth_error landmarks 16 in
  let pinkyTip := nth_error landmarks 20 in
  let indexBase := nth_error landmarks 5 in
  let middleBase := nth_error landmarks 9 in
  let ringBase := nth_error landmarks 13 in
  let pinkyBase := nth_error landmarks 17 in
  isIndexUp <- isUp indexTip indexBase ;;
  isMiddleUp <- isUp middleTip middleBase ;;
  isRingUp <- isUp ringTip ringBase ;;
  isPinkyUp <- isUp pinkyTip pinkyBase ;;
  tx <- get_x thumbTip ;;
  ix <- get_x indexTip ;;
  ty <- get_y thumbTip ;;
  iy <- get_y indexTip ;;
  let pinchDist := sqrt ((tx - ix) ^ 2 + (ty - iy) ^ 2) in
  let detectedMode := mode config in
  let detectedName := ""%string in
  detected <-
    (if Js.ltb pinchDist 0.05 then
       emit (SetConfig (Size 0.5)) ;;;
       ret (detectedMode, "PINCH (Resize)"%string)
     else if negb isIndexUp && negb isMiddleUp && negb isRingUp
             && negb isPinkyUp then
       ret (GATHER, "FIST (Gather)"%string)
     else if isIndexUp && isMiddleUp && negb isRingUp && negb isPinkyUp then
       ret (RAIN, "PEACE (Rain)"%string)
     else if isIndexUp && negb isMiddleUp && negb isRingUp
             && negb isPinkyUp then
       ret (SWIRL, "POINT (Swirl)"%string)
     else if isIndexUp && isMiddleUp && isRingUp && isPinkyUp then
       emit (SetConfig (Size 1.0)) ;;;
       ret (EXPLODE, "OPEN PALM (Explode)"%string)
     else
       ret (FLOAT, "NEUTRAL (Float)"%string)) ;;
  let detectedMode := fst detected in
  let detectedName := snd detected in
  (if negb (String.eqb detectedMode (mode config)) then
     emit (SetConfig (Mode detectedMode)) ;;;
     emit (SetCurrentGesture detectedName)
   else ret tt) ;;;
  (if negb (String.eqb currentGesture detectedName)
      && negb (String.eqb detectedName "") then
     emit (SetCurrentGesture detectedName)
   else ret tt).

(** [predictWebcam]: [ready] is the guard on the landmarker and the video,
    [landmarks] is [results.landmarks], one landmark array per hand. *)
Definition predictWebcam (config : GlobalConfig) (currentGesture : string)
           (ready : bool)
           (landmarks : option (list (list NormalizedLandmark))) : M unit :=
  if negb ready then emit RequestAnimationFrame
  else
    (match landmarks with
     | Some (hand :: _) => analyzeGesture config currentGesture hand
     | Some [] | None => ret tt
     end) ;;;
    emit RequestAnimationFrame.

(** The frame loop of a session. [connectToGemini] schedules the
    [predictWebcam] of the render it was clicked in, and that function
    re-registers itself, so every frame of the session runs with the
    [config] and the [currentGesture] of that render, while the updates it
    queues apply to the state of the moment. [frames] are the successive
    callbacks: whether the model and the video are ready, and
    [results.landmarks]. The result is what each frame did and the state the
    loop leaves; a frame that throws ends the loop, since it requested no
    next frame. *)
Fixpoint visionLoop (config : GlobalConfig) (currentGesture : string)
         (frames : list (bool * option (list (list NormalizedLandmark))))
         (s : AppState) : list (list Effect) * Js.completion AppState :=
  match frames with
  | [] => ([], Js.Return s)
  | (ready, landmarks) :: rest =>
      let '(effects, outcome) :=
        predictWebcam config currentGesture ready landmarks in
      match reduceAll s effects, outcome with
      | Js.Return s', Js.Return _ =>
          let '(trace, final) := visionLoop config currentGesture rest s' in
          (effects :: trace, final)
      | Js.Return _, Js.Throw e => ([effects], Js.Throw e)
      | Js.Throw e, _ => ([effects], Js.Throw e)
      end
  end.

(** A session started in the state [s]: the loop closes over the
    configuration and the label of [s]. *)
Definition startSession (s : AppState)
           (frames : list (bool * option (list (list NormalizedLandmark))))
  : list (list Effect) * Js.completion AppState :=
  visionLoop (config s) (currentGesture s) frames s.

(** *** Voice tool calls *)

(** One element of [toolCall.functionCalls]. *)
Record FunctionCall : Type := mkCall {
  name : string;
  args : Js.value;
  id : Js.value
}.

(** The body of the [for] loop up to [responses.push]. *)
Definition handleCall (call : FunctionCall) : M FunctionResponse :=
  let result := "ok"%string in
  (if String.eqb (name call) "setParticleColor" then
     emit (SetConfig (ColorOf (args call))) ;;;
     v <- lift (Js.get (args call) "color") ;;
     emit (AddLog (mkLog ("Color: "%string, Some v) "system"))
   else if String.eqb (name call) "setParticleSpeed" then
     emit (SetConfig (SpeedOf (args call))) ;;;
     v <- lift (Js.get (args call) "speed") ;;
     emit (AddLog (mkLog ("Speed: "%string, Some v) "system"))
   else ret tt) ;;;
  ret (mkResponse (id call) (name call) result).

Fixpoint forCalls (functionCalls : list FunctionCall)
         (responses : list FunctionResponse) : M (list FunctionResponse) :=
  match functionCalls with
  | [] => ret responses
  | call :: rest =>
      r <- handleCall call ;;
      forCalls rest (responses ++ [r])
  end.

(** [handleToolCalls]; [session] tells whether [sessionRef.current] is
    set. *)
Definition handleToolCalls (session : bool)
           (functionCalls : list FunctionCall) : M unit :=
  responses <- forCalls functionCalls [] ;;
  if session then emit (SendToolResponse responses) else ret tt.

(** *** Audio playback *)

(** [nextStartTimeRef] and the [source.start(when)] calls made so far, as
    (when, duration) pairs, oldest first. [sourcesRef], which nothing
    reads, is left out. *)
Record Playback : Type := mkPlayback {
  nextStartTime : R;
  started : list (R * R)
}.

(** [playAudioChunk] up to its [await]: [ctx] is [ctx.currentTime] when the
    output context exists and is not closed. *)
Definition playAudioChunk_enter (ctx : option R) (p : Playback) : Playback :=
  match ctx with
  | None => p
  | Some currentTime =>
      {| nextStartTime := Rmax (nextStartTime p) currentTime;
         started := started p |}
  end.

(** [playAudioChunk] after its [await]: [decoded] is the duration of the
    decoded buffer, or [None] when decoding threw, which the [catch]
    swallows. *)
Definition playAudioChunk_resume (decoded : option R) (p : Playback)
  : Playback :=
  match decoded with
  | None => p
  | Some duration =>
      {| nextStartTime := nextStartTime p + duration;
         started := started p ++ [(nextStartTime p, duration)] |}
  end.

(** The two halves of the calls in flight run in any order. *)
Inductive AudioStep : Type :=
| Enter (ctx : option R)
| Resume (decoded : option R).

Definition audioStep (p : Playback) (st : AudioStep) : Playback :=
  match st with
  | Enter ctx => playAudioChunk_enter ctx p
  | Resume decoded => playAudioChunk_resume decoded p
  end.

(** *** Session teardown and the microphone *)

(** The refs [stopSession] and the audio callback touch. A session promise,
    a node, a frame request and a context are known by a number; a stream by
    the numbers of its tracks. *)
Record Refs : Type := mkRefs {
  sessionRef : option nat;
  processorRef : option nat;
  requestRef : option nat;
  streamRef : option (list nat);
  videoRef : option (option (list nat));
  inputAudioCtxRef : option nat;
  outputAudioCtxRef : option nat
}.

(** The calls [stopSession] makes on the outside world. *)
Inductive Teardown : Type :=
| SetActive (v : bool)
| Disconnect (processor : nat)
| CancelAnimationFrame (request : nat)
| StopTrack (track : nat)
| CloseContext (ctx : nat).

(** [stopSession]: the refs it leaves and the calls it makes, in order. A
    request number 0 is falsy, so it is not cancelled. *)
Definition stopSession (r : Refs) : Refs * list Teardown :=
  ({| sessionRef := None;
      processorRef := None;
      requestRef := requestRef r;
      streamRef := None;
      videoRef := match videoRef r with
                  | Some _ => Some None
                  | None => None
                  end;
      inputAudioCtxRef := inputAudioCtxRef r;
      outputAudioCtxRef := outputAudioCtxRef r |},
   [SetActive false]
   ++ match processorRef r with
      | Some p => [Disconnect p]
      | None => []
      end
   ++ match requestRef r with
      | Some id => if Nat.eqb id 0 then [] else [CancelAnimationFrame id]
      | None => []
      end
   ++ match streamRef r with
      | Some tracks => map StopTrack tracks
      | None => []
      end
   ++ match inputAudioCtxRef r with
      | Some c => [CloseContext c]
      | None => []
      end
   ++ match outputAudioCtxRef r with
      | Some c => [CloseContext c]
      | None => []
      end).

(** [processor.onaudioprocess]: the session promise it captures with the
    blob made from the input, when the microphone is on and a session is
    set. *)
Definition onaudioprocess {Blob : Type} (isMicOn : bool) (r : Refs)
           (pcmBlob : Blob) : option (nat * Blob) :=
  if negb isMicOn then None
  else match sessionRef r with
       | None => None
       | Some currentSessionPromise => Some (currentSessionPromise, pcmBlob)
       end.

(** The [then] callback of the captured promise: the blob it sends, if the
    captured promise is still the one in [sessionRef]. *)
Definition sendRealtimeInput {Blob : Type} (r : Refs)
           (captured : nat * Blob) : option Blob :=
  match sessionRef r with
  | Some p => if Nat.eqb p (fst captured) then Some (snd captured) else None
  | None => None
  end.

(** *** The render and the message callback *)

(** The telemetry panel of the render: the mode handed to [toUpperCase],
    the gesture label, and the speed and the size handed to [toFixed]. Only
    a number has [toFixed]; on anything else the render throws. *)
Definition telemetry (s : AppState)
  : Js.completion (string * string * R * R) :=
  match speed (config s) with
  | Js.Num v =>
      Js.Return (mode (config s), currentGesture s, v, size (config s))
  | _ => Js.Throw Js.TypeError
  end.

(** A server message, as far as [onmessage] reads it. *)
Record Part : Type := mkPart { inlineData : option (option string) }.
Record Content : Type := mkContent { parts : option (list Part) }.
Record ServerContent : Type := mkServerContent {
  modelTurn : option Content
}.
Record LiveServerMessage : Type := mkMessage {
  toolCall : option (list FunctionCall);
  serverContent : option ServerContent
}.

(** [message.serverContent?.modelTurn?.parts[0]?.inlineData?.data]: the
    index into [parts] is not guarded. *)
Definition base64Audio (message : LiveServerMessage)
  : Js.completion (option string) :=
  match serverContent message with
  | None => Js.Return None
  | Some content =>
      match modelTurn content with
      | None => Js.Return None
      | Some turn =>
          match parts turn with
          | None => Js.Throw Js.TypeError
          | Some [] => Js.Return None
          | Some (part :: _) =>
              match inlineData part with
              | None => Js.Return None
              | Some data => Js.Return data
              end
          end
      end
  end.

(** The [onmessage] callback: its result is the chunk it hands to
    [playAudioChunk], if any; [outputCtx] tells whether
    [outputAudioCtxRef.current] is set. *)
Definition onmessage (session outputCtx : bool)
           (message : LiveServerMessage) : M (option string) :=
  (match toolCall message with
   | Some functionCalls =>
       emit (AddLog (mkLog (("Voice Cmd: "
                             ++ String.concat ", " (map name functionCalls))
                            %string, None) "gemini")) ;;;
       handleToolCalls session functionCalls
   | None => ret tt
   end) ;;;
  audio <- lift (base64Audio message) ;;
  match audio with
  | Some data =>
      if negb (String.eqb data "") && outputCtx then ret (Some data)
      else ret None
  | None => ret None
  end.

End App.

(** ** The gesture table of the specification *)

(** The classifier as the specification words it: an ordered table of
    (predicate, gesture) pairs over a 21-point hand, first match wins, and
    the write each gesture stands for. *)
Module GestureTable.

Inductive Gesture : Type :=
| PINCH | FIST | PEACE | POINT | OPEN_PALM | NEUTRAL.

Definition Hand : Type := list App.NormalizedLandmark.

Definition point (h : Hand) (k : nat) : App.NormalizedLandmark :=
  nth k h (App.mkLandmark 0 0 0).

Definition distance (a b : App.NormalizedLandmark) : R :=
  sqrt ((App.x a - App.x b) ^ 2 + (App.y a - App.y b) ^ 2).

(** A finger is extended when its tip is above its base knuckle, that is
    when the tip has the smaller y. *)
Definition extended (h : Hand) (tip base : nat) : bool :=
  Js.ltb (App.y (point h tip)) (App.y (point h base)).

Definition index_up (h : Hand) : bool := extended h 8 5.
Definition middle_up (h : Hand) : bool := extended h 12 9.
Definition ring_up (h : Hand) : bool := extended h 16 13.
Definition pinky_up (h : Hand) : bool := extended h 20 17.

Definition is_pinch (h : Hand) : bool :=
  Js.ltb (distance (point h 4) (point h 8)) 0.05.

Definition is_fist (h : Hand) : bool :=
  negb (index_up h) && negb (middle_up h) && negb (ring_up h)
  && negb (pinky_up h).

Definition is_peace (h : Hand) : bool :=
  index_up h && middle_up h && negb (ring_up h) && negb (pinky_up h).

Definition is_point (h : Hand) : bool :=
  index_up h && negb (middle_up h) && negb (ring_up h) && negb (pinky_up h).

Definition is_open_palm (h : Hand) : bool :=
  index_up h && middle_up h && ring_up h && pinky_up h.

Definition precedence : list ((Hand -> bool) * Gesture) :=
  [(is_pinch, PINCH); (is_fist, FIST); (is_peace, PEACE); (is_point, POINT);
   (is_open_palm, OPEN_PALM)].

Fixpoint first_match (table : list ((Hand -> bool) * Gesture)) (h : Hand)
  : Gesture :=
  match table with
  | [] => NEUTRAL
  | (holds, g) :: rest => if holds h then g else first_match rest h
  end.

Definition classify (h : Hand) : Gesture := first_match precedence h.

(** The label shown, the mode a gesture asks for (none for PINCH) and the
    size it sets (PINCH and OPEN_PALM only). *)
Definition label (g : Gesture) : string :=
  match g with
  | PINCH => "PINCH (Resize)"
  | FIST => "FIST (Gather)"
  | PEACE => "PEACE (Rain)"
  | POINT => "POINT (Swirl)"
  | OPEN_PALM => "OPEN PALM (Explode)"
  | NEUTRAL => "NEUTRAL (Float)"
  end.

Definition mode_of (g : Gesture) : option string :=
  match g with
  | PINCH => None
  | FIST => Some ParticleMode.GATHER
  | PEACE => Some ParticleMode.RAIN
  | POINT => Some ParticleMode.SWIRL
  | OPEN_PALM => Some ParticleMode.EXPLODE
  | NEUTRAL => Some ParticleMode.FLOAT
  end.

Definition size_of (g : Gesture) : option R :=
  match g with
  | PINCH => Some 0.5
  | OPEN_PALM => Some 1.0
  | _ => None
  end.

(** The writes of a frame classified as [g]: the size write whenever the
    gesture has one; the mode write, with the label, only when the mode
    differs from the one in [config]; the label when it differs from the
    one displayed. *)
Definition writes (config : App.GlobalConfig) (currentGesture : string)
           (g : Gesture) : list App.Effect :=
  match size_of g with
  | Some v => [App.SetConfig (App.Size v)]
  | None => []
  end ++
  match mode_of g with
  | Some m =>
      if String.eqb m (App.mode config) then []
      else [App.SetConfig (App.Mode m); App.SetCurrentGesture (label g)]
  | None => []
  end ++
  (if String.eqb currentGesture (label g) then []
   else [App.SetCurrentGesture (label g)]).

End GestureTable.

(** * Properties *)

(** ** The remainder *)

Section Remainder.

Lemma trunc_nonneg (a : R) : 0 <= a -> Js.trunc a = Int_part a.
Proof.
  intros Ha. unfold Js.trunc. destruct (Rle_dec 0 a); [reflexivity | lra].
Qed.

Lemma Int_part_bounds (r : R) : IZR (Int_part r) <= r < IZR (Int_part r) + 1.
Proof. destruct (base_Int_part r). lra. Qed.

Lemma quotient_nonneg (a b : R) : 0 <= a -> 0 < b -> 0 <= a / b.
Proof.
  intros Ha Hb. unfold Rdiv. apply Rmult_le_pos; [assumption |].
  left. now apply Rinv_0_lt_compat.
Qed.

(** On a non-negative dividend and a positive divisor, [%] is the
    mathematical remainder: it lies in [[0, b)] and differs from the
    dividend by a whole, non-negative number of [b]s. *)
Lemma rem_spec (a b : R) :
  0 <= a -> 0 < b ->
  0 <= Js.rem a b < b /\
  exists k : Z, (0 <= k)%Z /\ a = b * IZR k + Js.rem a b.
Proof.
  intros Ha Hb. unfold Js.rem.
  rewrite (trunc_nonneg _ (quotient_nonneg a b Ha Hb)).
  pose proof (Int_part_bounds (a / b)) as [Hlo Hhi].
  assert (Hab : a = b * (a / b)) by (field; lra).
  set (q := IZR (Int_part (a / b))) in *.
  split.
  - split; nra.
  - exists (Int_part (a / b)). split; [| fold q; lra].
    apply le_IZR. apply Rnot_lt_le. intros Hneg.
    assert (Hq : IZR (Int_part (a / b)) <= -1).
    { apply IZR_le. apply lt_IZR in Hneg. lia. }
    pose proof (quotient_nonneg a b Ha Hb). fold q in Hq. lra.
Qed.

(** Adding a whole number of divisors to the dividend leaves [%]
    unchanged. *)
Lemma rem_shift (a b : R) (n : nat) :
  0 <= a -> 0 < b -> Js.rem (a + b * INR n) b = Js.rem a b.
Proof.
  intros Ha Hb. unfold Js.rem.
  assert (Hn : 0 <= INR n) by apply pos_INR.
  assert (Hq : (a + b * INR n) / b = a / b + INR n) by (field; lra).
  rewrite Hq.
  pose proof (quotient_nonneg a b Ha Hb) as Hq0.
  rewrite !trunc_nonneg by lra.
  assert (Hint : Int_part (a / b + INR n) = (Int_part (a / b) + Z.of_nat n)%Z).
  { symmetry. apply Int_part_spec.
    rewrite plus_IZR, <- INR_IZR_INZ.
    pose proof (Int_part_bounds (a / b)). lra. }
  rewrite Hint, plus_IZR, <- INR_IZR_INZ. ring.
Qed.

(** A dividend below the divisor is its own remainder. *)
Lemma rem_small (a b : R) : 0 <= a < b -> Js.rem a b = a.
Proof.
  intros [Ha Hb]. unfold Js.rem.
  assert (Hq : 0 <= a / b < 1).
  { split; [apply quotient_nonneg; lra |].
    apply (Rmult_lt_reg_r b); [lra |].
    unfold Rdiv. rewrite Rmult_assoc, Rinv_l by lra. lra. }
  rewrite trunc_nonneg by lra.
  rewrite <- (Int_part_spec (a / b) 0%Z) by lra. lra.
Qed.

End Remainder.

(** ** The particle scene *)

Section SceneProperties.
Import ParticleMode Scene.

(** The scene draws every seed coordinate from [[-50, 50)]. *)
Lemma newParticle_seed (r : nat -> R) (i : nat) :
  (forall k, 0 <= r k < 1) ->
  let p := newParticle r i in
  -50 <= x p < 50 /\ -50 <= y p < 50 /\ -50 <= z p < 50.
Proof.
  intros Hr. cbn.
  pose proof (Hr (6 * i + 3)%nat). pose proof (Hr (6 * i + 4)%nat).
  pose proof (Hr (6 * i + 5)%nat).
  replace (i + (i + (i + (i + (i + (i + 0))))))%nat with (6 * i)%nat by lia.
  lra.
Qed.

Lemma initParticles_seed (r : nat -> R) (n : nat) (p : Particle) :
  (forall k, 0 <= r k < 1) ->
  In p (initParticles r n) ->
  -50 <= y p <= 50.
Proof.
  intros Hr Hin. unfold initParticles in Hin.
  apply in_map_iff in Hin as [i [<- _]].
  destruct (newParticle_seed r i Hr) as (_ & Hy & _). lra.
Qed.

(** The frame update of one particle in RAIN mode. *)
Lemma updateParticle_rain config time i p d :
  mode config = RAIN ->
  updateParticle config time i p d =
  (p, updateMatrix
        (set_scale
           (set_position d (vec3 (x p) (rainY (y p) time (speed config)) (z p)))
           (vec3 1 5 1))).
Proof.
  intros Hm. unfold updateParticle, switchMode. rewrite Hm. reflexivity.
Qed.

Lemma ltb_true (a b : R) : a < b -> Js.ltb a b = true.
Proof. intros. unfold Js.ltb. destruct (Rlt_dec a b); [reflexivity | lra]. Qed.

Lemma ltb_false (a b : R) : b <= a -> Js.ltb a b = false.
Proof. intros. unfold Js.ltb. destruct (Rlt_dec a b); [lra | reflexivity]. Qed.

Lemma rainY_period (y0 time speed : R) :
  0 <= time -> 0 < speed ->
  rainY y0 (time + 100 / speed) speed = rainY y0 time speed.
Proof.
  intros Ht Hs. unfold rainY.
  replace ((time + 100 / speed) * (50 * speed))
    with (time * (50 * speed) + 100 * INR 50).
  - rewrite rem_shift; [reflexivity | nra | lra].
  - replace (INR 50) with 50 by (simpl; lra). field. lra.
Qed.

(** At speed 1 a particle seeded at height 0 has fallen 75 units after 1.5
    seconds, below the band, and is rendered 100 higher, at 25. *)
Example rainY_wraps : rainY 0 1.5 1 = 25.
Proof.
  unfold rainY. replace (1.5 * (50 * 1)) with 75 by lra.
  rewrite rem_small by lra. rewrite ltb_true by lra. lra.
Qed.

(** 2/speed, the time the fall takes to cross the 100-unit band, is a
    period too. *)
Lemma rainY_band_period (y0 time speed : R) :
  0 <= time -> 0 < speed ->
  rainY y0 (time + 2 / speed) speed = rainY y0 time speed.
Proof.
  intros Ht Hs. unfold rainY.
  replace ((time + 2 / speed) * (50 * speed))
    with (time * (50 * speed) + 100 * INR 1).
  - rewrite rem_shift; [reflexivity | nra | lra].
  - simpl. field. lra.
Qed.

(** C1. In RAIN mode, for a particle seeded in [[-50, 50]], a non-negative
    elapsed time and a positive speed, the Y the frame renders is
    [seed.y - ((time * (50 * speed)) mod 100)], plus exactly 100 when that
    is below -50; it is the same [100/speed] seconds later, it lies in
    [[-50, 50]], and it differs from the unwrapped value by 0 or by exactly
    100. *)
Theorem rain_y_periodic_in_band config time i p d :
  mode config = RAIN ->
  0 <= time -> 0 < speed config -> -50 <= y p <= 50 ->
  let Y := fun tm =>
    vy (m_position (matrix (snd (updateParticle config tm i p d)))) in
  let fall := Js.rem (time * (50 * speed config)) 100 in
  (0 <= fall < 100 /\
   exists k : Z, (0 <= k)%Z /\ time * (50 * speed config) = 100 * IZR k + fall) /\
  Y time = (if Js.ltb (y p - fall) (-50) then y p - fall + 100 else y p - fall) /\
  Y (time + 100 / speed config) = Y time /\
  -50 <= Y time <= 50 /\
  (Y time = y p - fall \/ (y p - fall < -50 /\ Y time = y p - fall + 100)).
Proof.
  intros Hm Ht Hs Hy Y fall.
  assert (HY : forall tm, Y tm = rainY (y p) tm (speed config)).
  { intros tm. unfold Y. rewrite updateParticle_rain by assumption.
    reflexivity. }
  assert (Hfall : 0 <= fall < 100 /\
                  exists k : Z, (0 <= k)%Z /\
                    time * (50 * speed config) = 100 * IZR k + fall).
  { apply rem_spec; nra. }
  split; [exact Hfall |].
  destruct Hfall as [Hrange _].
  rewrite !HY. rewrite rainY_period by assumption.
  unfold rainY. fold fall.
  destruct (Rlt_dec (y p - fall) (-50)) as [Hlow | Hhigh].
  - rewrite ltb_true by assumption. repeat split; lra.
  - rewrite ltb_false by lra. repeat split; lra.
Qed.

Lemma rain_y_periodic_in_band_witness :
  vy (m_position (matrix (snd (updateParticle
        (mkConfig RAIN "#00ffff" 1 1 1) (1 + 100 / 1) 0
        (mkParticle 0 20 0.01 0 0 0 0 0 0) newObject3D))))
  = vy (m_position (matrix (snd (updateParticle
        (mkConfig RAIN "#00ffff" 1 1 1) 1 0
        (mkParticle 0 20 0.01 0 0 0 0 0 0) newObject3D)))).
Proof.
  refine (proj1 (proj2 (proj2
    (rain_y_periodic_in_band (mkConfig RAIN "#00ffff" 1 1 1) 1 0%nat
       (mkParticle 0 20 0.01 0 0 0 0 0 0) newObject3D _ _ _ _)))).
  - reflexivity.
  - lra.
  - simpl. lra.
  - simpl. lra.
Defined.

(** The particle a frame leaves does not depend on the elapsed time, the
    slot or the scratch object. *)
Lemma updateParticle_fst config time i p d :
  fst (updateParticle config time i p d)
  = fst (switchMode (mode config) (speed config) 0 0 p newObject3D).
Proof.
  unfold updateParticle, switchMode.
  repeat match goal with
         | |- context [String.eqb ?a ?b] => destruct (String.eqb a b)
         end; reflexivity.
Qed.

Lemma forEach_particles config time ps :
  forall i d buf,
    fst (fst (forEach config time i ps d buf))
    = map (fun p => fst (switchMode (mode config) (speed config) 0 0 p
                           newObject3D)) ps.
Proof.
  induction ps as [| p rest IH]; intros i d buf; [reflexivity |].
  cbn [forEach map].
  pose proof (updateParticle_fst config time i p d) as Hp.
  destruct (updateParticle config time i p d) as [p' d'].
  specialize (IH (S i) d' (setMatrixAt buf i (matrix d'))).
  destruct (forEach config time (S i) rest d' (setMatrixAt buf i (matrix d')))
    as [[rest' d''] buf''].
  cbn in *. now rewrite <- Hp, IH.
Qed.

Lemma useFrame_meshRef config time s mesh :
  meshRef s = Some mesh -> exists mesh', meshRef (useFrame config time s) = Some mesh'.
Proof.
  intros Hm. unfold useFrame. rewrite Hm.
  destruct (forEach config time 0 (particles s) (dummy s) (instanceMatrix mesh))
    as [[ps d] buf].
  eexists. reflexivity.
Qed.

Lemma useFrame_particles config time s mesh :
  meshRef s = Some mesh ->
  particles (useFrame config time s)
  = map (fun p => fst (switchMode (mode config) (speed config) 0 0 p
                         newObject3D)) (particles s).
Proof.
  intros Hm. unfold useFrame. rewrite Hm.
  pose proof (forEach_particles config time (particles s) 0%nat (dummy s)
                (instanceMatrix mesh)) as H.
  destruct (forEach config time 0 (particles s) (dummy s) (instanceMatrix mesh))
    as [[ps d] buf].
  exact H.
Qed.

Lemma frames_meshRef config clock n s mesh :
  meshRef s = Some mesh ->
  exists mesh', meshRef (frames config clock n s) = Some mesh'.
Proof.
  intros Hm. induction n as [| n [mesh' IH]]; cbn [frames].
  - eauto.
  - eapply useFrame_meshRef; eassumption.
Qed.

(** After [n] frames, slot [k] holds the particle it held at the start,
    advanced [n] times. *)
Lemma frames_nth config clock n s mesh k p :
  meshRef s = Some mesh ->
  nth_error (particles s) k = Some p ->
  nth_error (particles (frames config clock n s)) k
  = Some (Nat.iter n
            (fun p => fst (switchMode (mode config) (speed config) 0 0 p
                             newObject3D)) p).
Proof.
  intros Hm Hk. induction n as [| n IH]; cbn [frames Nat.iter nat_rect].
  - exact Hk.
  - destruct (frames_meshRef config clock n s mesh Hm) as [mesh' Hm'].
    rewrite (useFrame_particles _ _ _ _ Hm').
    rewrite nth_error_map, IH. reflexivity.
Qed.

(** *** FLOAT: the phase accumulator *)

Lemma eqb_neq_false (a b : string) : a <> b -> String.eqb a b = false.
Proof. intros H. now apply String.eqb_neq. Qed.

Lemma switchMode_float speed time i p d :
  t (fst (switchMode FLOAT speed time i p d)) = t p + speed * 0.5.
Proof. reflexivity. Qed.

Lemma switchMode_other_phase m speed time i p d :
  m <> FLOAT -> t (fst (switchMode m speed time i p d)) = t p.
Proof.
  intros Hm. unfold switchMode. rewrite (eqb_neq_false _ _ Hm).
  repeat match goal with
         | |- context [String.eqb ?a ?b] => destruct (String.eqb a b)
         end; reflexivity.
Qed.

Lemma float_iter_phase speed n p :
  t (Nat.iter n (fun p => fst (switchMode FLOAT speed 0 0 p newObject3D)) p)
  = t p + INR n * (speed * 0.5).
Proof.
  induction n as [| n IH].
  - simpl. lra.
  - rewrite Nat.iter_succ, switchMode_float, IH, S_INR. lra.
Qed.

(** C9. A FLOAT frame advances a particle's phase by exactly
    [speed * 0.5], no other regime writes it, and with FLOAT held at a
    positive speed the phase after a later frame is strictly greater than
    after an earlier one. *)
Theorem float_phase_strictly_increasing config clock s mesh k p n1 n2 :
  mode config = FLOAT -> 0 < speed config ->
  meshRef s = Some mesh -> nth_error (particles s) k = Some p ->
  (n1 < n2)%nat ->
  (forall time i q d,
      t (fst (updateParticle config time i q d)) = t q + speed config * 0.5) /\
  (forall other time i q d,
      mode other <> FLOAT -> t (fst (updateParticle other time i q d)) = t q) /\
  exists p1 p2,
    nth_error (particles (frames config clock n1 s)) k = Some p1 /\
    nth_error (particles (frames config clock n2 s)) k = Some p2 /\
    t p1 < t p2.
Proof.
  intros Hm Hs Hmesh Hk Hlt. repeat split.
  - intros. rewrite updateParticle_fst, Hm. apply switchMode_float.
  - intros. rewrite updateParticle_fst. now apply switchMode_other_phase.
  - do 2 eexists. repeat split.
    + eapply frames_nth; eassumption.
    + eapply frames_nth; eassumption.
    + rewrite Hm, !float_iter_phase.
      apply lt_INR in Hlt. nra.
Qed.

Lemma float_phase_strictly_increasing_witness :
  exists p1 p2,
    nth_error (particles (frames (mkConfig FLOAT "#00ffff" 1 1 1)
                            (fun n => INR n) 1
                            (mkState [mkParticle 0 20 0.01 1 2 3 0 0 0]
                               newObject3D (Some (mkMesh [None] false))))) 0
    = Some p1 /\
    nth_error (particles (frames (mkConfig FLOAT "#00ffff" 1 1 1)
                            (fun n => INR n) 3
                            (mkState [mkParticle 0 20 0.01 1 2 3 0 0 0]
                               newObject3D (Some (mkMesh [None] false))))) 0
    = Some p2 /\
    t p1 < t p2.
Proof.
  refine (proj2 (proj2
    (float_phase_strictly_increasing (mkConfig FLOAT "#00ffff" 1 1 1)
       (fun n => INR n)
       (mkState [mkParticle 0 20 0.01 1 2 3 0 0 0] newObject3D
          (Some (mkMesh [None] false)))
       (mkMesh [None] false) 0%nat (mkParticle 0 20 0.01 1 2 3 0 0 0)
       1%nat 3%nat _ _ _ _ _))).
  - reflexivity.
  - simpl. lra.
  - reflexivity.
  - reflexivity.
  - lia.
Defined.

(** *** GATHER: the drift contracts toward the origin *)

Lemma switchMode_gather speed time i p d :
  drift (fst (switchMode GATHER speed time i p d))
  = vec3 (mx p * (1 - speed * 0.1)) (my p * (1 - speed * 0.1))
         (mz p * (1 - speed * 0.1)).
Proof. unfold drift. cbn. f_equal; ring. Qed.

Lemma length_scale (a b c q : R) :
  length (vec3 (a * q) (b * q) (c * q)) = Rabs q * length (vec3 a b c).
Proof.
  unfold length. cbn [vx vy vz].
  replace (a * q * (a * q) + b * q * (b * q) + c * q * (c * q))
    with (Rsqr q * (a * a + b * b + c * c)) by (unfold Rsqr; ring).
  rewrite sqrt_mult.
  - now rewrite sqrt_Rsqr_abs.
  - apply Rle_0_sqr.
  - nra.
Qed.

Lemma length_pos (v : Vector3) : v <> vec3 0 0 0 -> 0 < length v.
Proof.
  destruct v as [a b c]. intros Hv. unfold length. cbn [vx vy vz].
  apply sqrt_lt_R0.
  destruct (Req_dec a 0) as [-> | Ha]; [| nra].
  destruct (Req_dec b 0) as [-> | Hb]; [| nra].
  destruct (Req_dec c 0) as [-> | Hc]; [| nra].
  now destruct Hv.
Qed.

Lemma length_nonneg (v : Vector3) : 0 <= length v.
Proof. apply sqrt_pos. Qed.

Lemma gather_iter_drift speed n p :
  drift (Nat.iter n (fun p => fst (switchMode GATHER speed 0 0 p newObject3D)) p)
  = vec3 (mx p * (1 - speed * 0.1) ^ n) (my p * (1 - speed * 0.1) ^ n)
         (mz p * (1 - speed * 0.1) ^ n).
Proof.
  induction n as [| n IH].
  - unfold drift. simpl. f_equal; ring.
  - rewrite Nat.iter_succ, switchMode_gather.
    set (pn := Nat.iter n _ p) in *.
    unfold drift in IH. injection IH as -> -> ->.
    simpl. f_equal; ring.
Qed.

(** C8, as the code has it. A GATHER frame multiplies every drift
    component by [1 - speed * 0.1]; for a speed in (0, 20) the magnitude of
    a non-zero drift strictly decreases at each frame, and with the mode
    held the drift converges to (0, 0, 0). *)
Theorem gather_drift_converges config clock s mesh k p :
  mode config = GATHER -> 0 < speed config < 20 ->
  meshRef s = Some mesh -> nth_error (particles s) k = Some p ->
  (forall time i q d,
      drift (fst (updateParticle config time i q d))
      = vec3 (mx q * (1 - speed config * 0.1))
             (my q * (1 - speed config * 0.1))
             (mz q * (1 - speed config * 0.1))) /\
  (forall time i q d,
      drift q <> vec3 0 0 0 ->
      length (drift (fst (updateParticle config time i q d)))
      < length (drift q)) /\
  (forall eps, 0 < eps ->
     exists N, forall n, (N <= n)%nat ->
       exists pn,
         nth_error (particles (frames config clock n s)) k = Some pn /\
         length (drift pn) < eps).
Proof.
  intros Hm Hs Hmesh Hk.
  assert (Hq : Rabs (1 - speed config * 0.1) < 1).
  { apply Rabs_def1; lra. }
  assert (Hstep : forall time i q d,
             drift (fst (updateParticle config time i q d))
             = vec3 (mx q * (1 - speed config * 0.1))
                    (my q * (1 - speed config * 0.1))
                    (mz q * (1 - speed config * 0.1))).
  { intros. rewrite updateParticle_fst, Hm. apply switchMode_gather. }
  split; [exact Hstep | split].
  - intros time i q d Hnz. rewrite Hstep, length_scale.
    pose proof (length_pos _ Hnz) as Hpos.
    change (vec3 (mx q) (my q) (mz q)) with (drift q). nra.
  - intros eps Heps.
    pose proof (length_nonneg (drift p)) as HL.
    destruct (pow_lt_1_zero (1 - speed config * 0.1) Hq
                (eps / (length (drift p) + 1))) as [N HN].
    { apply Rdiv_lt_0_compat; lra. }
    exists N. intros n Hn. eexists. split.
    + eapply frames_nth; eassumption.
    + rewrite Hm, gather_iter_drift, length_scale.
      change (vec3 (mx p) (my p) (mz p)) with (drift p).
      specialize (HN n Hn).
      pose proof (Rabs_pos ((1 - speed config * 0.1) ^ n)) as Hq0.
      assert (Hb : Rabs ((1 - speed config * 0.1) ^ n) * (length (drift p) + 1)
                   < eps).
      { apply (Rmult_lt_compat_r (length (drift p) + 1)) in HN; [| lra].
        unfold Rdiv in HN. rewrite Rmult_assoc, Rinv_l, Rmult_1_r in HN by lra.
        exact HN. }
      nra.
Qed.

Lemma gather_drift_converges_witness :
  length (drift (fst (updateParticle (mkConfig GATHER "#00ffff" 1 1 1) 0 0
                        (mkParticle 0 20 0.01 1 2 3 4 5 6) newObject3D)))
  < length (drift (mkParticle 0 20 0.01 1 2 3 4 5 6)).
Proof.
  refine (proj1 (proj2
    (gather_drift_converges (mkConfig GATHER "#00ffff" 1 1 1)
       (fun n => INR n)
       (mkState [mkParticle 0 20 0.01 1 2 3 4 5 6] newObject3D
          (Some (mkMesh [None] false)))
       (mkMesh [None] false) 0%nat (mkParticle 0 20 0.01 1 2 3 4 5 6)
       _ _ _ _)) 0 0%nat (mkParticle 0 20 0.01 1 2 3 4 5 6) newObject3D _).
  - reflexivity.
  - simpl. lra.
  - reflexivity.
  - reflexivity.
  - unfold drift. cbn [mx my mz]. intros H. injection H as H _ _. lra.
Defined.

(** C8, as stated, fails at speed 20: the factor is -1, so the drift
    (1, 0, 0) becomes (-1, 0, 0) and its magnitude does not decrease; and at
    speed 1 a drift that is (0, 0, 0), as every particle starts with, stays
    there, so its magnitude does not decrease either. *)
Lemma gather_speed_20_not_decreasing :
  drift (fst (updateParticle (mkConfig GATHER "#00ffff" 20 1 1) 0 0
                (mkParticle 0 20 0.01 1 2 3 1 0 0) newObject3D))
  = vec3 (-1) 0 0 /\
  ~ length (drift (fst (updateParticle (mkConfig GATHER "#00ffff" 20 1 1) 0 0
                          (mkParticle 0 20 0.01 1 2 3 1 0 0) newObject3D)))
    < length (drift (mkParticle 0 20 0.01 1 2 3 1 0 0)) /\
  ~ length (drift (fst (updateParticle (mkConfig GATHER "#00ffff" 1 1 1) 0 0
                          (mkParticle 0 20 0.01 1 2 3 0 0 0) newObject3D)))
    < length (drift (mkParticle 0 20 0.01 1 2 3 0 0 0)).
Proof.
  assert (H : drift (fst (updateParticle (mkConfig GATHER "#00ffff" 20 1 1) 0 0
                            (mkParticle 0 20 0.01 1 2 3 1 0 0) newObject3D))
              = vec3 (-1) 0 0).
  { unfold drift. cbn. f_equal; lra. }
  assert (H0 : drift (fst (updateParticle (mkConfig GATHER "#00ffff" 1 1 1) 0 0
                             (mkParticle 0 20 0.01 1 2 3 0 0 0) newObject3D))
               = vec3 0 0 0).
  { unfold drift. cbn. f_equal; lra. }
  split; [exact H | split].
  - rewrite H. unfold length, drift. cbn [vx vy vz mx my mz].
    replace (-1 * -1 + 0 * 0 + 0 * 0) with 1 by lra.
    replace (1 * 1 + 0 * 0 + 0 * 0) with 1 by lra.
    lra.
  - rewrite H0. unfold drift. cbn [mx my mz]. lra.
Qed.

(** *** Drift across modes and mode switches *)

Lemma switchMode_float_drift speed time i p d :
  let t' := t p + speed * 0.5 in
  drift (fst (switchMode FLOAT speed time i p d))
  = vec3 (mx p + (x p * (cos t' + sin (t' * 1) / 10) - mx p) * 0.1)
         (my p + (y p * (sin t' + cos (t' * 2) / 10) - my p) * 0.1)
         (mz p + (z p * cos t' - mz p) * 0.1).
Proof. reflexivity. Qed.

Lemma switchMode_other_drift m speed time i p d :
  m <> FLOAT -> m <> GATHER ->
  drift (fst (switchMode m speed time i p d)) = drift p.
Proof.
  intros Hf Hg. unfold switchMode.
  rewrite (eqb_neq_false _ _ Hf), (eqb_neq_false _ _ Hg).
  repeat match goal with
         | |- context [String.eqb ?a ?b] => destruct (String.eqb a b)
         end; reflexivity.
Qed.

(** C3. Nothing sets the drift to zero. A frame in a mode other than FLOAT
    and GATHER (so in EXPLODE, SWIRL and RAIN) leaves it as it was; FLOAT and
    GATHER only move it by a fraction of its distance to a target; and a
    re-render that switches the mode keeps the particle array, so the drift
    right after the switch is the drift right before it. *)
Theorem drift_continuous_across_modes config time i p d :
  mode config <> FLOAT -> mode config <> GATHER ->
  drift (fst (updateParticle config time i p d)) = drift p /\
  (forall c s n sz,
      drift (fst (updateParticle (mkConfig EXPLODE c s n sz) time i p d))
      = drift p /\
      drift (fst (updateParticle (mkConfig SWIRL c s n sz) time i p d))
      = drift p /\
      drift (fst (updateParticle (mkConfig RAIN c s n sz) time i p d))
      = drift p) /\
  (forall c s n sz,
      let t' := t p + s * 0.5 in
      drift (fst (updateParticle (mkConfig FLOAT c s n sz) time i p d))
      = vec3 (mx p + (x p * (cos t' + sin (t' * 1) / 10) - mx p) * 0.1)
             (my p + (y p * (sin t' + cos (t' * 2) / 10) - my p) * 0.1)
             (mz p + (z p * cos t' - mz p) * 0.1)) /\
  (forall c s n sz,
      drift (fst (updateParticle (mkConfig GATHER c s n sz) time i p d))
      = vec3 (mx p + (0 - mx p) * s * 0.1)
             (my p + (0 - my p) * s * 0.1)
             (mz p + (0 - mz p) * s * 0.1)) /\
  (forall r prev m ps,
      useMemo_particles r prev
        (mkConfig m (color prev) (speed prev) (count prev) (size prev)) ps
      = ps).
Proof.
  intros Hf Hg.
  split; [| split; [| split; [| split]]]; intros.
  - rewrite updateParticle_fst. now apply switchMode_other_drift.
  - rewrite !updateParticle_fst. repeat split.
  - rewrite updateParticle_fst. reflexivity.
  - rewrite updateParticle_fst. reflexivity.
  - unfold useMemo_particles. cbn [count]. now rewrite Nat.eqb_refl.
Qed.

Lemma drift_continuous_across_modes_witness :
  drift (fst (updateParticle (mkConfig RAIN "#00ffff" 1 1 1) 2 0
                (mkParticle 0 20 0.01 1 2 3 4 5 6) newObject3D))
  = drift (mkParticle 0 20 0.01 1 2 3 4 5 6).
Proof.
  refine (proj1
    (drift_continuous_across_modes (mkConfig RAIN "#00ffff" 1 1 1) 2 0%nat
       (mkParticle 0 20 0.01 1 2 3 4 5 6) newObject3D _ _)).
  - discriminate.
  - discriminate.
Defined.

(** *** EXPLODE *)

(** C7, as the code has it. In EXPLODE mode the rendered position is
    [(x * (2.5 + 0.5 sin time), y * (2.5 + 0.5 cos time),
      z * (2.5 + 0.5 sin (time * 0.5)))] and the particle (its drift and
    phase included) is untouched; at time 0 the position is
    [(2.5 x, 3 y, 2.5 z)]: the Y factor is 3, since cos 0 = 1. *)
Theorem explode_position c s n sz time i p d :
  m_position (matrix (snd (updateParticle (mkConfig EXPLODE c s n sz)
                             time i p d)))
  = vec3 (x p * (2.5 + 0.5 * sin time))
         (y p * (2.5 + 0.5 * cos time))
         (z p * (2.5 + 0.5 * sin (time * 0.5))) /\
  fst (updateParticle (mkConfig EXPLODE c s n sz) time i p d) = p /\
  m_position (matrix (snd (updateParticle (mkConfig EXPLODE c s n sz)
                             0 i p d)))
  = vec3 (x p * 2.5) (y p * 3) (z p * 2.5).
Proof.
  split; [| split].
  - cbn. f_equal; f_equal; lra.
  - reflexivity.
  - cbn. rewrite Rmult_0_l, sin_0, cos_0. f_equal; f_equal; lra.
Qed.

(** C7, as stated, fails at time 0 on the Y axis: a particle seeded at
    (1, 1, 1) is rendered at (2.5, 3, 2.5), not at (2.5, 2.5, 2.5). *)
Lemma explode_at_time_0_is_not_seed_times_2_5 :
  m_position (matrix (snd (updateParticle (mkConfig EXPLODE "#00ffff" 1 3 1)
                             0 0 (mkParticle 0 20 0.01 1 1 1 0 0 0)
                             newObject3D)))
  = vec3 2.5 3 2.5 /\
  vec3 2.5 3 2.5 <> vec3 (1 * 2.5) (1 * 2.5) (1 * 2.5).
Proof.
  split.
  - cbn. rewrite Rmult_0_l, sin_0, cos_0. f_equal; lra.
  - intros H. injection H as _ H _. lra.
Qed.

(** *** A mode outside the enum *)

Lemma setMatrixAt_nth buf i m j :
  nth_error (setMatrixAt buf i m) j
  = if Nat.eqb i j && Nat.ltb j (List.length buf) then Some (Some m)
    else nth_error buf j.
Proof.
  revert i j. induction buf as [| b rest IH]; intros i j.
  - cbn [setMatrixAt]. destruct (Nat.eqb i j); cbn; destruct j; reflexivity.
  - destruct i as [| i], j as [| j]; cbn [setMatrixAt nth_error];
      try reflexivity.
    rewrite IH. reflexivity.
Qed.

Lemma setMatrixAt_length buf i m :
  List.length (setMatrixAt buf i m) = List.length buf.
Proof.
  revert i. induction buf as [| b rest IH]; intros [| i]; cbn; congruence.
Qed.

Lemma unrecognized_eqb m :
  ~ In m ParticleMode.values ->
  String.eqb m FLOAT = false /\ String.eqb m GATHER = false /\
  String.eqb m EXPLODE = false /\ String.eqb m SWIRL = false /\
  String.eqb m RAIN = false.
Proof.
  intros Hm. unfold ParticleMode.values in Hm. cbn [In] in Hm.
  repeat split; apply String.eqb_neq; intros ->; tauto.
Qed.

(** With no case matching, the callback leaves the particle and the scratch
    position as they are, and composes the matrix from that stale position,
    the shared rotation and the configured size. *)
Lemma updateParticle_unrecognized config time i p d :
  ~ In (mode config) ParticleMode.values ->
  updateParticle config time i p d
  = (p, updateMatrix
          (setScalar
             (setScalar (set_rotation d (vec3 (sin time) (cos time) 0)) 1)
             (size config))).
Proof.
  intros Hm. destruct (unrecognized_eqb _ Hm) as (Hf & Hg & He & Hs & Hr).
  unfold updateParticle, switchMode. rewrite Hf, Hg, He, Hs, Hr. reflexivity.
Qed.

Lemma forEach_unrecognized config time ps :
  ~ In (mode config) ParticleMode.values ->
  forall i d buf,
    let T := compose (position d) (vec3 (sin time) (cos time) 0)
               (vec3 (size config) (size config) (size config)) in
    let r := forEach config time i ps d buf in
    fst (fst r) = ps /\
    position (snd (fst r)) = position d /\
    forall j,
      nth_error (snd r) j
      = if Nat.leb i j && Nat.ltb j (i + List.length ps)
           && Nat.ltb j (List.length buf)
        then Some (Some T) else nth_error buf j.
Proof.
  intros Hm. induction ps as [| p rest IH]; intros i d buf T r.
  - subst r. cbn [forEach fst snd List.length].
    split; [reflexivity | split; [reflexivity |]]. intros j.
    destruct (Nat.leb_spec i j), (Nat.ltb_spec j (i + 0)); try lia;
      reflexivity.
  - subst r. cbn [forEach].
    rewrite (updateParticle_unrecognized _ _ _ _ _ Hm).
    set (d' := updateMatrix _).
    specialize (IH (S i) d' (setMatrixAt buf i (matrix d'))).
    cbv zeta in IH.
    destruct (forEach config time (S i) rest d' (setMatrixAt buf i (matrix d')))
      as [[rest' d''] buf''].
    cbn [fst snd] in *. destruct IH as (-> & Hpos & Hbuf).
    repeat split; [exact Hpos |].
    intros j. rewrite Hbuf, setMatrixAt_length, setMatrixAt_nth.
    change (matrix d') with T. change (position d') with (position d).
    fold T. cbn [List.length].
    destruct (Nat.leb_spec (S i) j), (Nat.leb_spec i j),
      (Nat.ltb_spec j (S i + List.length rest)),
      (Nat.ltb_spec j (i + S (List.length rest))),
      (Nat.ltb_spec j (List.length buf)), (Nat.eqb_spec i j);
      try lia; reflexivity.
Qed.

(** C2, as the code has it. On a mode outside the five enumerated values
    the frame does not fail: no case of the switch matches, every particle
    is left untouched, and every slot receives the transform made of the
    scratch object's stale position, the shared rotation
    [(sin time, cos time, 0)] and the uniform scale [size]. *)
Theorem unrecognized_mode_renders_stale_position config time s mesh :
  ~ In (mode config) ParticleMode.values ->
  meshRef s = Some mesh ->
  exists buf,
    meshRef (useFrame config time s) = Some (mkMesh buf true) /\
    particles (useFrame config time s) = particles s /\
    forall j,
      (j < List.length (particles s))%nat ->
      (j < List.length (instanceMatrix mesh))%nat ->
      nth_error buf j
      = Some (Some (compose (position (dummy s))
                      (vec3 (sin time) (cos time) 0)
                      (vec3 (size config) (size config) (size config)))).
Proof.
  intros Hm Hmesh. unfold useFrame. rewrite Hmesh.
  pose proof (forEach_unrecognized config time (particles s) Hm 0%nat
                (dummy s) (instanceMatrix mesh)) as H.
  cbv zeta in H.
  destruct (forEach config time 0 (particles s) (dummy s)
              (instanceMatrix mesh)) as [[ps d] buf].
  cbn [fst snd] in H. destruct H as (-> & _ & Hbuf).
  exists buf. repeat split. intros j Hp Hb. rewrite Hbuf.
  destruct (Nat.ltb_spec j (0 + List.length (particles s))),
    (Nat.ltb_spec j (List.length (instanceMatrix mesh))); try lia.
  reflexivity.
Qed.

Lemma unrecognized_mode_renders_stale_position_witness :
  exists buf,
    meshRef (useFrame (mkConfig "spiral" "#00ffff" 1 1 1) 0
               (mkState [mkParticle 0 20 0.01 1 2 3 0 0 0] newObject3D
                  (Some (mkMesh [None] false))))
    = Some (mkMesh buf true) /\
    particles (useFrame (mkConfig "spiral" "#00ffff" 1 1 1) 0
                 (mkState [mkParticle 0 20 0.01 1 2 3 0 0 0] newObject3D
                    (Some (mkMesh [None] false))))
    = [mkParticle 0 20 0.01 1 2 3 0 0 0] /\
    forall j,
      (j < 1)%nat -> (j < 1)%nat ->
      nth_error buf j
      = Some (Some (compose (vec3 0 0 0) (vec3 (sin 0) (cos 0) 0)
                      (vec3 1 1 1))).
Proof.
  refine (unrecognized_mode_renders_stale_position
            (mkConfig "spiral" "#00ffff" 1 1 1) 0
            (mkState [mkParticle 0 20 0.01 1 2 3 0 0 0] newObject3D
               (Some (mkMesh [None] false)))
            (mkMesh [None] false) _ _).
  - cbn. intros H. repeat destruct H as [H | H]; try discriminate H; exact H.
  - reflexivity.
Defined.

(** C2, as stated, fails: with the mode "spiral" the frame completes,
    writes a transform into the slot of the particle and flags the buffer
    for upload. *)
Lemma unrecognized_mode_does_not_fail :
  ~ In "spiral"%string ParticleMode.values /\
  useFrame (mkConfig "spiral" "#00ffff" 1 1 1) 0
    (mkState [mkParticle 0 20 0.01 1 2 3 0 0 0] newObject3D
       (Some (mkMesh [None] false)))
  = mkState [mkParticle 0 20 0.01 1 2 3 0 0 0]
      (mkObject3D (vec3 0 0 0) (vec3 (sin 0) (cos 0) 0) (vec3 1 1 1)
         (compose (vec3 0 0 0) (vec3 (sin 0) (cos 0) 0) (vec3 1 1 1)))
      (Some (mkMesh
               [Some (compose (vec3 0 0 0) (vec3 (sin 0) (cos 0) 0)
                        (vec3 1 1 1))]
               true)).
Proof.
  split.
  - cbn. intros H. repeat destruct H as [H | H]; try discriminate H; exact H.
  - reflexivity.
Qed.

End SceneProperties.

(** ** Gestures *)

Section GestureProperties.
Import App GestureTable.

Lemma landmarks_21 (lm : list NormalizedLandmark) :
  List.length lm = 21%nat ->
  exists l0 l1 l2 l3 l4 l5 l6 l7 l8 l9 l10 l11 l12 l13 l14 l15 l16 l17 l18
         l19 l20,
    lm = [l0; l1; l2; l3; l4; l5; l6; l7; l8; l9; l10; l11; l12; l13; l14;
          l15; l16; l17; l18; l19; l20].
Proof.
  intros H.
  do 21 (destruct lm as [| ? lm]; [discriminate H |]).
  destruct lm; [| discriminate H].
  repeat eexists.
Qed.

(** On a 21-point hand the handler completes, and its effects are the
    writes of the first gesture of the table that matches. *)
Lemma analyzeGesture_trace config cg lm :
  List.length lm = 21%nat ->
  analyzeGesture config cg lm = (writes config cg (classify lm), Js.Return tt).
Proof.
  intros H.
  destruct (landmarks_21 lm H)
    as (l0 & l1 & l2 & l3 & l4 & l5 & l6 & l7 & l8 & l9 & l10 & l11 & l12
        & l13 & l14 & l15 & l16 & l17 & l18 & l19 & l20 & ->).
  unfold analyzeGesture, classify, precedence, first_match, writes,
    is_pinch, is_fist, is_peace, is_point, is_open_palm,
    index_up, middle_up, ring_up, pinky_up, extended, point, distance.
  cbn [nth_error nth isUp get_x get_y bind ret App.x App.y app].
  destruct (Js.ltb (sqrt ((x l4 - x l8) ^ 2 + (y l4 - y l8) ^ 2)) 0.05).
  - cbn [bind emit ret app fst snd label mode_of size_of].
    rewrite String.eqb_refl. cbn [negb bind ret app].
    destruct (String.eqb cg "PINCH (Resize)"); reflexivity.
  - destruct (Js.ltb (y l8) (y l5)), (Js.ltb (y l12) (y l9)),
      (Js.ltb (y l16) (y l13)), (Js.ltb (y l20) (y l17));
      cbn [negb andb bind emit ret app fst snd label mode_of size_of];
      match goal with
      | |- context [String.eqb ?m (mode config)] =>
          destruct (String.eqb m (mode config))
      end;
      cbn [negb andb bind emit ret app fst snd];
      match goal with
      | |- context [String.eqb cg ?l] => destruct (String.eqb cg l)
      end; reflexivity.
Qed.

Lemma classify_pinch lm : is_pinch lm = true -> classify lm = PINCH.
Proof. intros H. unfold classify, precedence, first_match. now rewrite H. Qed.

Ltac effect_cases :=
  repeat match goal with
         | H : _ \/ _ |- _ => destruct H as [H | H]
         | H : False |- _ => destruct H
         | H : _ /\ _ |- _ => destruct H
         | H : ex _ |- _ => destruct H
         | H : SetConfig _ = SetConfig _ |- _ => injection H as H
         | H : SetCurrentGesture _ = SetCurrentGesture _ |- _ =>
             injection H as H
         | H : Some _ = Some _ |- _ => injection H as H
         | H : Size _ = Size _ |- _ => injection H as H
         | H : Mode _ = Mode _ |- _ => injection H as H
         end;
  subst; try discriminate; try congruence.

Lemma writes_size config cg g v :
  In (SetConfig (Size v)) (writes config cg g) <-> size_of g = Some v.
Proof.
  unfold writes.
  destruct g; cbn [size_of mode_of label];
    repeat match goal with
           | |- context [String.eqb ?a ?b] => destruct (String.eqb a b)
           end;
    cbn [In app]; split; intros H; effect_cases; auto.
Qed.

Lemma writes_mode config cg g m :
  In (SetConfig (Mode m)) (writes config cg g)
  <-> mode_of g = Some m /\ m <> mode config.
Proof.
  unfold writes.
  destruct g; cbn [size_of mode_of label];
    repeat match goal with
           | |- context [String.eqb ?a (mode config)] =>
               destruct (String.eqb_spec a (mode config))
           | |- context [String.eqb cg ?b] => destruct (String.eqb cg b)
           end;
    cbn [In app]; split; intros H; effect_cases; auto.
Qed.

Lemma writes_label config cg g l :
  In (SetCurrentGesture l) (writes config cg g)
  <-> l = label g /\
      (cg <> label g \/ exists m, mode_of g = Some m /\ m <> mode config).
Proof.
  unfold writes.
  destruct g; cbn [size_of mode_of label];
    repeat match goal with
           | |- context [String.eqb ?a (mode config)] =>
               destruct (String.eqb_spec a (mode config))
           | |- context [String.eqb cg ?b] => destruct (String.eqb_spec cg b)
           end;
    cbn [In app]; split; intros H; effect_cases; eauto 6.
Qed.

(** Under a given configuration and displayed label, distinct gestures
    have distinct writes: the effects of a frame tell which row of the
    table was applied. *)
Lemma writes_injective config cg g g' :
  writes config cg g = writes config cg g' -> g = g'.
Proof.
  unfold writes.
  destruct g, g'; try reflexivity; cbn [size_of mode_of label];
    repeat match goal with
           | |- context [String.eqb cg ?b] =>
               destruct (String.eqb_spec cg b); subst;
                 cbn [String.eqb Ascii.eqb Bool.eqb]
           | |- context [String.eqb ?a (mode config)] =>
               destruct (String.eqb a (mode config))
           end;
    cbn [app]; intros H; discriminate H.
Qed.

(** The hand with all 21 landmarks at the origin: thumb and index tips
    coincide, and no finger tip is above its base. *)
Lemma closed_hand_pinch_and_fist :
  is_pinch (repeat (mkLandmark 0 0 0) 21) = true /\
  is_fist (repeat (mkLandmark 0 0 0) 21) = true.
Proof.
  split.
  - unfold is_pinch, distance, point. cbn [repeat nth App.x App.y].
    replace ((0 - 0) ^ 2 + (0 - 0) ^ 2) with 0 by (simpl; lra).
    rewrite sqrt_0. apply ltb_true. lra.
  - unfold is_fist, index_up, middle_up, ring_up, pinky_up, extended, point.
    cbn [repeat nth App.y]. rewrite ltb_false by lra. reflexivity.
Qed.

(** C6. On a 21-point hand the handler applies the first match of the
    table PINCH (thumb tip within 0.05 of the index tip), FIST (no finger
    tip above its base), PEACE, POINT, OPEN_PALM, else NEUTRAL; when the
    pinch predicate holds, whatever the later predicates say, it writes
    size 0.5 and no mode, so the state it acts on gets size 0.5 and keeps
    its mode. *)
Theorem gesture_precedence_first_match config cg lm :
  List.length lm = 21%nat ->
  analyzeGesture config cg lm
  = (writes config cg
       (first_match [(is_pinch, PINCH); (is_fist, FIST); (is_peace, PEACE);
                     (is_point, POINT); (is_open_palm, OPEN_PALM)] lm),
     Js.Return tt) /\
  (forall g,
      analyzeGesture config cg lm = (writes config cg g, Js.Return tt) ->
      g = classify lm) /\
  (is_pinch lm = true ->
   let effects := fst (analyzeGesture config cg lm) in
   In (SetConfig (Size 0.5)) effects /\
   (forall m, ~ In (SetConfig (Mode m)) effects) /\
   forall s, exists s',
     reduceAll s effects = Js.Return s' /\
     size (App.config s') = 0.5 /\
     mode (App.config s') = mode (App.config s)).
Proof.
  intros Hlen. split; [exact (analyzeGesture_trace config cg lm Hlen) |].
  split.
  { intros g Hg. rewrite (analyzeGesture_trace config cg lm Hlen) in Hg.
    injection Hg as Hg. symmetry. exact (writes_injective _ _ _ _ Hg). }
  intros Hp effects. subst effects.
  rewrite (analyzeGesture_trace config cg lm Hlen), (classify_pinch lm Hp).
  cbn [fst]. split; [| split].
  - apply writes_size. reflexivity.
  - intros m Hm. apply writes_mode in Hm as [Hm _]. discriminate Hm.
  - intros s. unfold writes. cbn [size_of mode_of label app].
    destruct (String.eqb cg "PINCH (Resize)"); eexists; cbn;
      repeat split; reflexivity.
Qed.

Lemma gesture_precedence_first_match_witness :
  In (SetConfig (Size 0.5))
     (fst (analyzeGesture initialConfig "None"
             (repeat (mkLandmark 0 0 0) 21))) /\
  forall m,
    ~ In (SetConfig (Mode m))
        (fst (analyzeGesture initialConfig "None"
                (repeat (mkLandmark 0 0 0) 21))).
Proof.
  destruct (proj2 (proj2
    (gesture_precedence_first_match initialConfig "None"
       (repeat (mkLandmark 0 0 0) 21) eq_refl))
    (proj1 closed_hand_pinch_and_fist)) as (Hsize & Hmode & _).
  split; assumption.
Defined.

(** The hand of a fist, thumb tip away from the index tip and no finger
    tip above its base, and a hand with only the middle finger up. *)
Lemma fist_hand_is_fist :
  classify (repeat (mkLandmark 0 0.5 0) 4
            ++ mkLandmark 1 0.5 0 :: repeat (mkLandmark 0 0.5 0) 16)
  = FIST.
Proof.
  unfold classify, precedence, first_match, is_pinch, is_fist,
    index_up, middle_up, ring_up, pinky_up, extended, point, distance.
  cbn [repeat app nth App.x App.y].
  replace ((1 - 0) ^ 2 + (0.5 - 0.5) ^ 2) with 1 by (simpl; lra).
  rewrite sqrt_1. rewrite !ltb_false by lra. reflexivity.
Qed.

Lemma middle_up_hand_is_neutral :
  classify (repeat (mkLandmark 0 0.5 0) 4
            ++ mkLandmark 1 0.5 0 :: repeat (mkLandmark 0 0.5 0) 7
            ++ mkLandmark 0 0.2 0 :: repeat (mkLandmark 0 0.5 0) 8)
  = NEUTRAL.
Proof.
  unfold classify, precedence, first_match, is_pinch, is_fist, is_peace,
    is_point, is_open_palm,
    index_up, middle_up, ring_up, pinky_up, extended, point, distance.
  cbn [repeat app nth App.x App.y].
  replace ((1 - 0) ^ 2 + (0.5 - 0.5) ^ 2) with 1 by (simpl; lra).
  rewrite sqrt_1. rewrite (ltb_true 0.2 0.5) by lra.
  rewrite !ltb_false by lra. reflexivity.
Qed.

(** C10, where the code departs from it. In a session started in the
    initial state (mode FLOAT, label "None") a fist held for two frames
    writes the mode GATHER and the label on the second frame too, although
    both were applied by the first; and a neutral hand on the third frame
    writes no mode, although the detected mode FLOAT differs from the
    applied GATHER, so the mode stays GATHER under the label
    "NEUTRAL (Float)". The gates compare with the mode and the label the
    loop captured when the session started, not with the ones applied. *)
Theorem held_fist_is_rewritten_every_frame :
  startSession (mkApp initialConfig "None" [])
    [(true, Some [repeat (mkLandmark 0 0.5 0) 4
                  ++ mkLandmark 1 0.5 0 :: repeat (mkLandmark 0 0.5 0) 16]);
     (true, Some [repeat (mkLandmark 0 0.5 0) 4
                  ++ mkLandmark 1 0.5 0 :: repeat (mkLandmark 0 0.5 0) 16]);
     (true, Some [repeat (mkLandmark 0 0.5 0) 4
                  ++ mkLandmark 1 0.5 0 :: repeat (mkLandmark 0 0.5 0) 7
                  ++ mkLandmark 0 0.2 0 :: repeat (mkLandmark 0 0.5 0) 8])]
  = ([[SetConfig (Mode ParticleMode.GATHER);
       SetCurrentGesture "FIST (Gather)"; SetCurrentGesture "FIST (Gather)";
       RequestAnimationFrame];
      [SetConfig (Mode ParticleMode.GATHER);
       SetCurrentGesture "FIST (Gather)"; SetCurrentGesture "FIST (Gather)";
       RequestAnimationFrame];
      [SetCurrentGesture "NEUTRAL (Float)"; RequestAnimationFrame]],
     Js.Return
       (mkApp (mkGlobal ParticleMode.GATHER (Js.Str "#00ffff") (Js.Num 1)
                 2000 1)
          "NEUTRAL (Float)" [])).
Proof.
  unfold startSession.
  cbn [visionLoop App.config currentGesture predictWebcam negb].
  rewrite !analyzeGesture_trace by reflexivity.
  rewrite fist_hand_is_fist, middle_up_hand_is_neutral.
  reflexivity.
Qed.

(** *** Fewer than 21 landmarks *)

(** C5, as the code has it. On a landmark array of fewer than 21 points
    the handler performs no write, so the configuration is not altered, but
    the frame is not skipped quietly: reading a coordinate of the missing
    landmark throws a TypeError, which leaves [predictWebcam] before it
    requests the next frame. *)
Theorem short_landmarks_throw config cg lm :
  (List.length lm < 21)%nat ->
  analyzeGesture config cg lm = ([], Js.Throw Js.TypeError) /\
  forall hands,
    predictWebcam config cg true (Some (lm :: hands))
    = ([], Js.Throw Js.TypeError).
Proof.
  intros Hlen.
  assert (H : analyzeGesture config cg lm = ([], Js.Throw Js.TypeError)).
  { do 21 (destruct lm as [| ? lm]; [reflexivity |]).
    cbn [List.length] in Hlen. lia. }
  split; [exact H |].
  intros hands. unfold predictWebcam. cbn [negb]. rewrite H. reflexivity.
Qed.

Lemma short_landmarks_throw_witness :
  analyzeGesture initialConfig "None" (repeat (mkLandmark 0.5 0.5 0) 20)
  = ([], Js.Throw Js.TypeError).
Proof.
  refine (proj1
    (short_landmarks_throw initialConfig "None"
       (repeat (mkLandmark 0.5 0.5 0) 20) _)).
  cbn [repeat List.length]. lia.
Defined.

(** C5, as stated, fails: a hand of 20 landmarks makes the handler throw,
    and the error leaves the frame loop without the next frame being
    requested. *)
Lemma twenty_landmarks_throw :
  List.length (repeat (mkLandmark 0.5 0.5 0) 20) = 20%nat /\
  analyzeGesture initialConfig "None" (repeat (mkLandmark 0.5 0.5 0) 20)
  = ([], Js.Throw Js.TypeError) /\
  predictWebcam initialConfig "None" true
    (Some [repeat (mkLandmark 0.5 0.5 0) 20])
  = ([], Js.Throw Js.TypeError).
Proof. repeat split. Qed.

End GestureProperties.

(** ** Voice tool calls *)

Section ToolCallProperties.
Import App.

Lemma get_defined (v : Js.value) (k : string) :
  v <> Js.Undefined -> v <> Js.Null -> Js.get v k = Js.Return (Js.prop v k).
Proof. intros Hu Hn. destruct v; try reflexivity; contradiction. Qed.

(** What one call does when its arguments can be read. *)
Lemma handleCall_defined call :
  args call <> Js.Undefined -> args call <> Js.Null ->
  handleCall call
  = ((if String.eqb (name call) "setParticleColor" then
        [SetConfig (ColorOf (args call));
         AddLog (mkLog ("Color: "%string, Some (Js.prop (args call) "color"))
                   "system")]
      else if String.eqb (name call) "setParticleSpeed" then
        [SetConfig (SpeedOf (args call));
         AddLog (mkLog ("Speed: "%string, Some (Js.prop (args call) "speed"))
                   "system")]
      else []),
     Js.Return (mkResponse (id call) (name call) "ok")).
Proof.
  intros Hu Hn. unfold handleCall.
  rewrite !(get_defined _ _ Hu Hn).
  destruct (String.eqb (name call) "setParticleColor");
    [reflexivity |].
  destruct (String.eqb (name call) "setParticleSpeed"); reflexivity.
Qed.

Lemma forCalls_defined calls :
  (forall call, In call calls ->
                args call <> Js.Undefined /\ args call <> Js.Null) ->
  forall responses,
    forCalls calls responses
    = (flat_map (fun call => fst (handleCall call)) calls,
       Js.Return
         (responses
          ++ map (fun call => mkResponse (id call) (name call) "ok") calls)).
Proof.
  induction calls as [| call rest IH]; intros Hargs responses.
  - cbn. now rewrite app_nil_r.
  - cbn [forCalls flat_map map].
    destruct (Hargs call (or_introl eq_refl)) as [Hu Hn].
    rewrite (handleCall_defined call Hu Hn). cbn [fst bind].
    rewrite IH by (intros c Hc; apply Hargs; now right).
    now rewrite <- app_assoc.
Qed.





End ToolCallProperties.

(** * Further properties of the scene *)

Section SceneCoverage.
Import ParticleMode Scene.

(** ** The particle array *)

(** X1. The array the scene builds has [count] particles, each with a phase
    in [[0, 100)], a factor in [[20, 120)], a speed in [[0.01, 0.015)],
    seed coordinates in [[-50, 50)] and a zero drift. *)
Theorem initParticles_ranges (r : nat -> R) (n : nat) :
  (forall k, 0 <= r k < 1) ->
  List.length (initParticles r n) = n /\
  forall p, In p (initParticles r n) ->
    0 <= t p < 100 /\ 20 <= factor p < 120 /\ 0.01 <= pSpeed p < 0.015 /\
    -50 <= x p < 50 /\ -50 <= y p < 50 /\ -50 <= z p < 50 /\
    drift p = vec3 0 0 0.
Proof.
  intros Hr. unfold initParticles. split.
  - now rewrite length_map, length_seq.
  - intros p Hin. apply in_map_iff in Hin as [i [<- _]].
    destruct (newParticle_seed r i Hr) as (Hx & Hy & Hz).
    unfold newParticle. cbn [t factor pSpeed x y z drift mx my mz].
    cbn [newParticle x y z] in Hx, Hy, Hz.
    pose proof (Hr (6 * i)%nat). pose proof (Hr (6 * i + 1)%nat).
    pose proof (Hr (6 * i + 2)%nat).
    repeat split; try lra.
Qed.

Lemma initParticles_ranges_witness :
  List.length (initParticles (fun _ => 0.5) 3) = 3%nat.
Proof.
  refine (proj1 (initParticles_ranges (fun _ => 0.5) 3 _)).
  intros k. lra.
Defined.

(** What a frame does to the particle array: nothing without a mesh, the
    mode's update of every particle with one. *)
Lemma useFrame_particles_cases config time s :
  (meshRef s = None /\ useFrame config time s = s) \/
  ((exists mesh, meshRef s = Some mesh) /\
   (exists mesh', meshRef (useFrame config time s) = Some mesh') /\
   particles (useFrame config time s)
   = map (fun p => fst (switchMode (mode config) (speed config) 0 0 p
                          newObject3D)) (particles s)).
Proof.
  destruct (meshRef s) as [mesh |] eqn:Hm.
  - right. split; [eauto | split].
    + eapply useFrame_meshRef; eassumption.
    + eapply useFrame_particles; eassumption.
  - left. split; [reflexivity |]. unfold useFrame. now rewrite Hm.
Qed.

(** A relation from a particle to a later one that survives putting an
    update in front of it holds between the array before and after any run
    of frames. *)
Lemma play_related (Rel : Particle -> Particle -> Prop) fs :
  (forall p, Rel p p) ->
  (forall p q m sp,
      Rel (fst (switchMode m sp 0 0 p newObject3D)) q -> Rel p q) ->
  forall s, Forall2 Rel (particles s) (particles (play fs s)).
Proof.
  intros Hrefl Hstep. induction fs as [| [config time] rest IH]; intros s.
  - cbn [play]. induction (particles s); constructor; auto.
  - cbn [play]. specialize (IH (useFrame config time s)).
    destruct (useFrame_particles_cases config time s)
      as [[_ Hs] | (_ & _ & Hps)]; [now rewrite Hs in * |].
    rewrite Hps in IH. clear Hps.
    remember (particles (play rest (useFrame config time s))) as out.
    clear Heqout. revert out IH.
    induction (particles s) as [| p ps IHps]; intros out IH;
      inversion IH; subst; constructor; eauto.
Qed.

(** A property of particles that every allowed update keeps is kept by any
    run of allowed frames. *)
Lemma play_invariant (Inv : Particle -> Prop)
      (allowed : ParticleConfig -> Prop) fs :
  (forall config p,
      allowed config -> Inv p ->
      Inv (fst (switchMode (mode config) (speed config) 0 0 p newObject3D))) ->
  (forall config time, In (config, time) fs -> allowed config) ->
  forall s, Forall Inv (particles s) -> Forall Inv (particles (play fs s)).
Proof.
  intros Hstep. induction fs as [| [config time] rest IH];
    intros Hall s Hs; cbn [play]; [exact Hs |].
  apply IH; [intros c tm Hin; apply (Hall c tm); now right |].
  destruct (useFrame_particles_cases config time s)
    as [[_ Heq] | (_ & _ & Heq)]; rewrite Heq; [exact Hs |].
  apply Forall_map. eapply Forall_impl; [| exact Hs].
  intros p Hp. apply Hstep; [apply (Hall config time); now left | exact Hp].
Qed.

Lemma switchMode_seed m sp time i p d :
  let p' := fst (switchMode m sp time i p d) in
  x p' = x p /\ y p' = y p /\ z p' = z p /\
  factor p' = factor p /\ pSpeed p' = pSpeed p.
Proof.
  unfold switchMode.
  repeat match goal with
         | |- context [String.eqb ?a ?b] => destruct (String.eqb a b)
         end; cbn; repeat split.
Qed.

(** X2. No run of frames, whatever the modes, speeds and times, changes the
    number of particles or any particle's seed coordinates, factor or own
    speed: slot [k] keeps the seed it was created with. *)
Theorem play_keeps_seeds fs s :
  List.length (particles (play fs s)) = List.length (particles s) /\
  forall k p,
    nth_error (particles s) k = Some p ->
    exists p',
      nth_error (particles (play fs s)) k = Some p' /\
      x p' = x p /\ y p' = y p /\ z p' = z p /\
      factor p' = factor p /\ pSpeed p' = pSpeed p.
Proof.
  pose proof (play_related
    (fun p q => x q = x p /\ y q = y p /\ z q = z p /\
                factor q = factor p /\ pSpeed q = pSpeed p) fs) as H.
  assert (Hrel : Forall2
            (fun p q => x q = x p /\ y q = y p /\ z q = z p /\
                        factor q = factor p /\ pSpeed q = pSpeed p)
            (particles s) (particles (play fs s))).
  { apply H.
    - intros p. repeat split.
    - intros p q m sp (Hx & Hy & Hz & Hf & Hs).
      destruct (switchMode_seed m sp 0 0%nat p newObject3D)
        as (Hx' & Hy' & Hz' & Hf' & Hs').
      repeat split; congruence. }
  split.
  - symmetry. eapply Forall2_length; eassumption.
  - clear H. revert Hrel. generalize (particles (play fs s)) as out.
    induction (particles s) as [| q ps IH]; intros out Hrel k p Hk.
    + destruct k; discriminate Hk.
    + inversion Hrel as [| ? q' ? out' Hq Hrest]; subst.
      destruct k as [| k]; cbn [nth_error] in *.
      * injection Hk as <-. eauto.
      * eapply IH; eassumption.
Qed.

Lemma play_keeps_seeds_witness :
  exists p',
    nth_error
      (particles (play [(mkConfig FLOAT "#00ffff" 1 1 1, 0);
                        (mkConfig GATHER "#00ffff" 2 1 1, 1)]
                    (mkState [mkParticle 0 20 0.01 1 2 3 0 0 0] newObject3D
                       (Some (mkMesh [None] false))))) 0
    = Some p' /\
    x p' = 1 /\ y p' = 2 /\ z p' = 3 /\ factor p' = 20 /\ pSpeed p' = 0.01.
Proof.
  refine (proj2
    (play_keeps_seeds [(mkConfig FLOAT "#00ffff" 1 1 1, 0);
                       (mkConfig GATHER "#00ffff" 2 1 1, 1)]
       (mkState [mkParticle 0 20 0.01 1 2 3 0 0 0] newObject3D
          (Some (mkMesh [None] false))))
    0%nat (mkParticle 0 20 0.01 1 2 3 0 0 0) _).
  reflexivity.
Defined.

(** ** The instance buffer *)

Lemma forEach_buffer_frame config time ps :
  forall i d buf,
    List.length (snd (forEach config time i ps d buf)) = List.length buf /\
    forall j,
      (j < i \/ i + List.length ps <= j)%nat ->
      nth_error (snd (forEach config time i ps d buf)) j = nth_error buf j.
Proof.
  induction ps as [| p rest IH]; intros i d buf.
  - cbn. split; reflexivity.
  - cbn [forEach].
    destruct (updateParticle config time i p d) as [p' d'].
    specialize (IH (S i) d' (setMatrixAt buf i (matrix d'))).
    destruct (forEach config time (S i) rest d' (setMatrixAt buf i (matrix d')))
      as [[rest' d''] buf''].
    cbn [snd List.length] in *. destruct IH as [Hlen Hout].
    rewrite setMatrixAt_length in Hlen. split; [exact Hlen |].
    intros j Hj. rewrite Hout by lia. rewrite setMatrixAt_nth.
    destruct (Nat.eqb_spec i j); [lia | reflexivity].
Qed.

(** Slot [i + k] receives the matrix composed for the [k]-th particle, from
    a scratch object that has whatever every update keeps of the first
    one. *)
Lemma forEach_slot (Inv : Object3D -> Prop) config time :
  (forall i p d, Inv d -> Inv (snd (updateParticle config time i p d))) ->
  forall ps i d buf k p,
    Inv d -> nth_error ps k = Some p ->
    (i + k < List.length buf)%nat ->
    exists d',
      Inv d' /\
      nth_error (snd (forEach config time i ps d buf)) (i + k)
      = Some (Some (matrix (snd (updateParticle config time (i + k) p d')))).
Proof.
  intros Hkeep. induction ps as [| q rest IH]; intros i d buf k p Hd Hk Hlen.
  - destruct k; discriminate Hk.
  - cbn [forEach].
    pose proof (Hkeep i q d Hd) as Hd'.
    destruct (updateParticle config time i q d) as [q' d'] eqn:Hq.
    pose proof (forEach_buffer_frame config time rest (S i) d'
                  (setMatrixAt buf i (matrix d'))) as [_ Hout].
    specialize (IH (S i) d' (setMatrixAt buf i (matrix d'))).
    destruct (forEach config time (S i) rest d' (setMatrixAt buf i (matrix d')))
      as [[rest' d''] buf''].
    cbn [snd] in *. destruct k as [| k]; cbn [nth_error] in Hk.
    + injection Hk as <-. exists d. split; [exact Hd |].
      rewrite Nat.add_0_r in *. rewrite Hout by lia.
      rewrite setMatrixAt_nth, Nat.eqb_refl, Hq.
      destruct (Nat.ltb_spec i (List.length buf)); [reflexivity | lia].
    + replace (i + S k)%nat with (S i + k)%nat by lia.
      apply IH; [exact Hd' | exact Hk |].
      rewrite setMatrixAt_length. lia.
Qed.

Lemma useFrame_slot (Inv : Object3D -> Prop) config time s mesh k p :
  (forall i q d, Inv d -> Inv (snd (updateParticle config time i q d))) ->
  meshRef s = Some mesh -> Inv (dummy s) ->
  nth_error (particles s) k = Some p ->
  (k < List.length (instanceMatrix mesh))%nat ->
  exists buf d',
    meshRef (useFrame config time s) = Some (mkMesh buf true) /\
    Inv d' /\
    nth_error buf k
    = Some (Some (matrix (snd (updateParticle config time k p d')))).
Proof.
  intros Hkeep Hm Hd Hk Hlen.
  destruct (forEach_slot Inv config time Hkeep (particles s) 0%nat (dummy s)
              (instanceMatrix mesh) k p Hd Hk Hlen) as [d' [Hd' Hslot]].
  unfold useFrame. rewrite Hm.
  destruct (forEach config time 0 (particles s) (dummy s) (instanceMatrix mesh))
    as [[ps d''] buf].
  exists buf, d'. cbn [snd] in Hslot. cbn [Nat.add] in Hslot. auto.
Qed.

(** X3. A frame keeps the size of the instance buffer, leaves every slot
    beyond the particle count as it was, fills every slot that has a
    particle, and flags the buffer for upload, in every mode. *)
Theorem useFrame_buffer config time s mesh :
  meshRef s = Some mesh ->
  exists buf,
    meshRef (useFrame config time s) = Some (mkMesh buf true) /\
    List.length buf = List.length (instanceMatrix mesh) /\
    (forall j, (List.length (particles s) <= j)%nat ->
               nth_error buf j = nth_error (instanceMatrix mesh) j) /\
    (forall j, (j < List.length (particles s))%nat ->
               (j < List.length (instanceMatrix mesh))%nat ->
               exists m, nth_error buf j = Some (Some m)).
Proof.
  intros Hm.
  pose proof (forEach_buffer_frame config time (particles s) 0%nat (dummy s)
                (instanceMatrix mesh)) as [Hlen Hout].
  assert (Hin : forall j,
             (j < List.length (particles s))%nat ->
             (j < List.length (instanceMatrix mesh))%nat ->
             exists m,
               nth_error (snd (forEach config time 0 (particles s) (dummy s)
                                 (instanceMatrix mesh))) j = Some (Some m)).
  { intros j Hj Hb.
    destruct (nth_error (particles s) j) as [p |] eqn:Hp;
      [| apply nth_error_None in Hp; lia].
    destruct (forEach_slot (fun _ => True) config time (fun _ _ _ _ => I)
                (particles s) 0%nat (dummy s) (instanceMatrix mesh) j p I Hp Hb)
      as [d' [_ Hslot]].
    eexists. exact Hslot. }
  unfold useFrame. rewrite Hm.
  destruct (forEach config time 0 (particles s) (dummy s) (instanceMatrix mesh))
    as [[ps d''] buf].
  cbn [snd] in *. exists buf.
  split; [reflexivity | split; [exact Hlen | split; [| exact Hin]]].
  intros j Hj. apply Hout. lia.
Qed.

Lemma useFrame_buffer_witness :
  exists buf,
    meshRef (useFrame (mkConfig RAIN "#00ffff" 1 1 1) 0
               (mkState [mkParticle 0 20 0.01 1 2 3 0 0 0] newObject3D
                  (Some (mkMesh [None; None] false))))
    = Some (mkMesh buf true) /\
    List.length buf = 2%nat /\
    (forall j, (1 <= j)%nat -> nth_error buf j = nth_error [None; None] j) /\
    (forall j, (j < 1)%nat -> (j < 2)%nat ->
               exists m, nth_error buf j = Some (Some m)).
Proof.
  refine (useFrame_buffer (mkConfig RAIN "#00ffff" 1 1 1) 0
            (mkState [mkParticle 0 20 0.01 1 2 3 0 0 0] newObject3D
               (Some (mkMesh [None; None] false)))
            (mkMesh [None; None] false) _).
  reflexivity.
Defined.

(** ** What each mode renders *)

Lemma sin_times_2 (u : R) : Rabs (sin u * 2) <= 2.
Proof. pose proof (SIN_bound u). apply Rabs_le. lra. Qed.

Lemma cos_times_2 (u : R) : Rabs (cos u * 2) <= 2.
Proof. pose proof (COS_bound u). apply Rabs_le. lra. Qed.

(** X4. A FLOAT frame renders every particle within 2 units of its seed on
    each axis, with the rotation [(sin time, cos time, 0)] and the uniform
    scale [size], whatever the scratch object held before; the drift plays
    no part in the position. *)
Theorem float_frame_transform config time s mesh k p :
  mode config = FLOAT ->
  meshRef s = Some mesh ->
  nth_error (particles s) k = Some p ->
  (k < List.length (instanceMatrix mesh))%nat ->
  exists buf m,
    meshRef (useFrame config time s) = Some (mkMesh buf true) /\
    nth_error buf k = Some (Some m) /\
    (m_position m
     = vec3 (x p + sin (time + x p) * 2) (y p + cos (time + y p) * 2)
            (z p + sin (time + z p) * 2) /\
     Rabs (vx (m_position m) - x p) <= 2 /\
     Rabs (vy (m_position m) - y p) <= 2 /\
     Rabs (vz (m_position m) - z p) <= 2 /\
     m_rotation m = vec3 (sin time) (cos time) 0 /\
     m_scale m = vec3 (size config) (size config) (size config)).
Proof.
  intros Hmode Hm Hk Hlen.
  destruct (useFrame_slot (fun _ => True) config time s mesh k p
              (fun _ _ _ _ => I) Hm I Hk Hlen) as (buf & d' & Hmesh & _ & Hslot).
  exists buf. eexists. split; [exact Hmesh | split; [exact Hslot |]].
  unfold updateParticle, switchMode. rewrite Hmode. cbn.
  repeat split.
  - replace (x p + sin (time + x p) * 2 - x p) with (sin (time + x p) * 2)
      by ring. apply sin_times_2.
  - replace (y p + cos (time + y p) * 2 - y p) with (cos (time + y p) * 2)
      by ring. apply cos_times_2.
  - replace (z p + sin (time + z p) * 2 - z p) with (sin (time + z p) * 2)
      by ring. apply sin_times_2.
Qed.

Lemma float_frame_transform_witness :
  exists buf m,
    meshRef (useFrame (mkConfig FLOAT "#00ffff" 1 1 2) 0
               (mkState [mkParticle 0 20 0.01 1 2 3 0 0 0] newObject3D
               (Some (mkMesh [None] false))))
    = Some (mkMesh buf true) /\
    nth_error buf 0 = Some (Some m) /\
    m_scale m = vec3 2 2 2.
Proof.
  destruct (float_frame_transform (mkConfig FLOAT "#00ffff" 1 1 2) 0
              (mkState [mkParticle 0 20 0.01 1 2 3 0 0 0] newObject3D
               (Some (mkMesh [None] false)))
              (mkMesh [None] false) 0%nat (mkParticle 0 20 0.01 1 2 3 0 0 0)
              eq_refl eq_refl eq_refl (Nat.lt_0_succ 0))
    as (buf & m & Hmesh & Hslot & Hrest).
  exists buf, m. split; [exact Hmesh | split; [exact Hslot |]].
  apply Hrest.
Defined.

(** X5. A GATHER frame renders every particle within 2 units, on X and Y,
    of a tenth of its seed, and at exactly a tenth of its seed on Z, with
    the shared rotation and the uniform scale [size]. *)
Theorem gather_frame_transform config time s mesh k p :
  mode config = GATHER ->
  meshRef s = Some mesh ->
  nth_error (particles s) k = Some p ->
  (k < List.length (instanceMatrix mesh))%nat ->
  exists buf m,
    meshRef (useFrame config time s) = Some (mkMesh buf true) /\
    nth_error buf k = Some (Some m) /\
    (Rabs (vx (m_position m) - x p * 0.1) <= 2 /\
     Rabs (vy (m_position m) - y p * 0.1) <= 2 /\
     vz (m_position m) = z p * 0.1 /\
     m_rotation m = vec3 (sin time) (cos time) 0 /\
     m_scale m = vec3 (size config) (size config) (size config)).
Proof.
  intros Hmode Hm Hk Hlen.
  destruct (useFrame_slot (fun _ => True) config time s mesh k p
              (fun _ _ _ _ => I) Hm I Hk Hlen) as (buf & d' & Hmesh & _ & Hslot).
  exists buf. eexists. split; [exact Hmesh | split; [exact Hslot |]].
  unfold updateParticle, switchMode. rewrite Hmode. cbn.
  repeat split.
  - replace (x p * 0.1 + sin (time * 10 + INR k) * 2 - x p * 0.1)
      with (sin (time * 10 + INR k) * 2) by ring. apply sin_times_2.
  - replace (y p * 0.1 + cos (time * 10 + INR k) * 2 - y p * 0.1)
      with (cos (time * 10 + INR k) * 2) by ring. apply cos_times_2.
Qed.

Lemma gather_frame_transform_witness :
  exists buf m,
    meshRef (useFrame (mkConfig GATHER "#00ffff" 1 1 2) 0
               (mkState [mkParticle 0 20 0.01 1 2 3 0 0 0] newObject3D
               (Some (mkMesh [None] false))))
    = Some (mkMesh buf true) /\
    nth_error buf 0 = Some (Some m) /\
    m_scale m = vec3 2 2 2.
Proof.
  destruct (gather_frame_transform (mkConfig GATHER "#00ffff" 1 1 2) 0
              (mkState [mkParticle 0 20 0.01 1 2 3 0 0 0] newObject3D
               (Some (mkMesh [None] false)))
              (mkMesh [None] false) 0%nat (mkParticle 0 20 0.01 1 2 3 0 0 0)
              eq_refl eq_refl eq_refl (Nat.lt_0_succ 0))
    as (buf & m & Hmesh & Hslot & Hrest).
  exists buf, m. split; [exact Hmesh | split; [exact Hslot |]].
  apply Hrest.
Defined.



(** X7. A SWIRL frame puts particle [k] on the circle of radius
    [15 + 5 sin (time + k)] around the Y axis, a radius between 10 and 20,
    at the angle [2 time speed + k / 100], which is also its yaw; its scale
    is the uniform [size], and the X and Z rotation are not written: they
    are those the scratch object had before the frame. *)
Theorem swirl_frame_transform config time s mesh k p :
  mode config = SWIRL ->
  meshRef s = Some mesh ->
  nth_error (particles s) k = Some p ->
  (k < List.length (instanceMatrix mesh))%nat ->
  exists buf m,
    meshRef (useFrame config time s) = Some (mkMesh buf true) /\
    nth_error buf k = Some (Some m) /\
    (let angle := time * speed config * 2 + INR k * 0.01 in
     let radius := 15 + sin (time + INR k) * 5 in
     m_position m
     = vec3 (cos angle * radius) ((y p + sin time * 10) * 0.5)
            (sin angle * radius) /\
     vx (m_position m) * vx (m_position m)
     + vz (m_position m) * vz (m_position m) = radius * radius /\
     10 <= radius <= 20 /\
     m_rotation m
     = vec3 (vx (rotation (dummy s))) angle (vz (rotation (dummy s))) /\
     m_scale m = vec3 (size config) (size config) (size config)).
Proof.
  intros Hmode Hm Hk Hlen.
  destruct (useFrame_slot
              (fun d => vx (rotation d) = vx (rotation (dummy s)) /\
                        vz (rotation d) = vz (rotation (dummy s)))
              config time s mesh k p) as (buf & d' & Hmesh & [Hx Hz] & Hslot);
    try assumption; try (split; reflexivity).
  { intros i q d Hd. unfold updateParticle, switchMode. rewrite Hmode.
    cbn. exact Hd. }
  exists buf. eexists. split; [exact Hmesh | split; [exact Hslot |]].
  unfold updateParticle, switchMode. rewrite Hmode. cbn. rewrite Hx, Hz.
  pose proof (SIN_bound (time + INR k)).
  pose proof (sin2_cos2 (time * speed config * 2 + INR k * 0.01)) as Hsc.
  unfold Rsqr in Hsc.
  repeat split; try lra.
  set (a := time * speed config * 2 + INR k * 0.01) in *.
  set (rad := 15 + sin (time + INR k) * 5).
  replace (cos a * rad * (cos a * rad) + sin a * rad * (sin a * rad))
    with ((sin a * sin a + cos a * cos a) * (rad * rad)) by ring.
  rewrite Hsc. ring.
Qed.

Lemma swirl_frame_transform_witness :
  exists buf m,
    meshRef (useFrame (mkConfig SWIRL "#00ffff" 1 1 2) 0
               (mkState [mkParticle 0 20 0.01 1 2 3 0 0 0] newObject3D
               (Some (mkMesh [None] false))))
    = Some (mkMesh buf true) /\
    nth_error buf 0 = Some (Some m) /\
    m_scale m = vec3 2 2 2.
Proof.
  destruct (swirl_frame_transform (mkConfig SWIRL "#00ffff" 1 1 2) 0
              (mkState [mkParticle 0 20 0.01 1 2 3 0 0 0] newObject3D
               (Some (mkMesh [None] false)))
              (mkMesh [None] false) 0%nat (mkParticle 0 20 0.01 1 2 3 0 0 0)
              eq_refl eq_refl eq_refl (Nat.lt_0_succ 0))
    as (buf & m & Hmesh & Hslot & Hrest).
  exists buf, m. split; [exact Hmesh | split; [exact Hslot |]].
  apply Hrest.
Defined.

(** X8. A RAIN frame renders every particle at its seed X and Z with the
    scale (1, 5, 1) whatever [size] is, and writes no rotation: every
    particle gets the rotation the scratch object had before the frame, so
    a yaw left by a SWIRL frame stays. *)
Theorem rain_frame_transform config time s mesh k p :
  mode config = RAIN ->
  meshRef s = Some mesh ->
  nth_error (particles s) k = Some p ->
  (k < List.length (instanceMatrix mesh))%nat ->
  exists buf m,
    meshRef (useFrame config time s) = Some (mkMesh buf true) /\
    nth_error buf k = Some (Some m) /\
    (m_position m = vec3 (x p) (rainY (y p) time (speed config)) (z p) /\
     m_rotation m = rotation (dummy s) /\
     m_scale m = vec3 1 5 1).
Proof.
  intros Hmode Hm Hk Hlen.
  destruct (useFrame_slot (fun d => rotation d = rotation (dummy s))
              config time s mesh k p) as (buf & d' & Hmesh & Hrot & Hslot);
    try assumption; try reflexivity.
  { intros i q d Hd. rewrite updateParticle_rain by assumption. exact Hd. }
  exists buf. eexists. split; [exact Hmesh | split; [exact Hslot |]].
  rewrite updateParticle_rain by assumption. cbn. rewrite Hrot.
  repeat split.
Qed.

Lemma rain_frame_transform_witness :
  exists buf m,
    meshRef (useFrame (mkConfig RAIN "#00ffff" 1 1 2) 0
               (mkState [mkParticle 0 20 0.01 1 2 3 0 0 0] newObject3D
               (Some (mkMesh [None] false))))
    = Some (mkMesh buf true) /\
    nth_error buf 0 = Some (Some m) /\
    m_scale m = vec3 1 5 1.
Proof.
  destruct (rain_frame_transform (mkConfig RAIN "#00ffff" 1 1 2) 0
              (mkState [mkParticle 0 20 0.01 1 2 3 0 0 0] newObject3D
               (Some (mkMesh [None] false)))
              (mkMesh [None] false) 0%nat (mkParticle 0 20 0.01 1 2 3 0 0 0)
              eq_refl eq_refl eq_refl (Nat.lt_0_succ 0))
    as (buf & m & Hmesh & Hslot & Hrest).
  exists buf, m. split; [exact Hmesh | split; [exact Hslot |]].
  apply Hrest.
Defined.

(** ** State across runs of frames *)

Lemma Rabs_interval (a b : R) : Rabs a <= b -> - b <= a <= b.
Proof. unfold Rabs. destruct (Rcase_abs a); lra. Qed.

Lemma smooth_bound (m x0 a : R) :
  Rabs a <= 1.1 -> Rabs m <= 1.1 * Rabs x0 ->
  Rabs (m + (x0 * a - m) * 0.1) <= 1.1 * Rabs x0.
Proof.
  intros Ha Hm.
  assert (Hxa : Rabs (x0 * a) <= 1.1 * Rabs x0).
  { rewrite Rabs_mult. pose proof (Rabs_pos x0). nra. }
  apply Rabs_interval in Hm. apply Rabs_interval in Hxa.
  apply Rabs_le. lra.
Qed.

Lemma contract_bound (m s b : R) :
  0 <= s <= 20 -> Rabs m <= b -> Rabs (m + (0 - m) * s * 0.1) <= b.
Proof.
  intros Hs Hm. apply Rabs_interval in Hm. apply Rabs_le. split; nra.
Qed.

Lemma float_targets_bound (u : R) :
  Rabs (cos u + sin (u * 1) / 10) <= 1.1 /\
  Rabs (sin u + cos (u * 2) / 10) <= 1.1 /\
  Rabs (cos u) <= 1.1.
Proof.
  pose proof (SIN_bound u). pose proof (COS_bound u).
  pose proof (SIN_bound (u * 1)). pose proof (COS_bound (u * 2)).
  repeat split; apply Rabs_le; lra.
Qed.

Lemma switchMode_drift_bound config p :
  (mode config = GATHER -> 0 <= speed config <= 20) ->
  Rabs (mx p) <= 1.1 * Rabs (x p) /\
  Rabs (my p) <= 1.1 * Rabs (y p) /\
  Rabs (mz p) <= 1.1 * Rabs (z p) ->
  let p' := fst (switchMode (mode config) (speed config) 0 0 p newObject3D) in
  Rabs (mx p') <= 1.1 * Rabs (x p') /\
  Rabs (my p') <= 1.1 * Rabs (y p') /\
  Rabs (mz p') <= 1.1 * Rabs (z p').
Proof.
  intros Hs (Hx & Hy & Hz). unfold switchMode.
  destruct (String.eqb (mode config) FLOAT).
  { cbn. destruct (float_targets_bound (t p + speed config * 0.5))
      as (Ha & Hb & Hc).
    repeat split; apply smooth_bound; assumption. }
  destruct (String.eqb_spec (mode config) GATHER) as [Hg |].
  { cbn. specialize (Hs Hg). repeat split; apply contract_bound; assumption. }
  repeat match goal with
         | |- context [String.eqb ?a ?b] => destruct (String.eqb a b)
         end; cbn; auto.
Qed.

(** X9. Starting from the array the scene builds, over any run of frames in
    any modes in which GATHER is only used with a speed in [[0, 20]], every
    drift component stays within 1.1 times the size of the seed coordinate
    of its axis, hence within 55. *)
Theorem drift_stays_bounded r n fs d mesh :
  (forall k, 0 <= r k < 1) ->
  (forall config time,
      In (config, time) fs -> mode config = GATHER ->
      0 <= speed config <= 20) ->
  forall p,
    In p (particles (play fs (mkState (initParticles r n) d mesh))) ->
    (Rabs (mx p) <= 1.1 * Rabs (x p) /\
     Rabs (my p) <= 1.1 * Rabs (y p) /\
     Rabs (mz p) <= 1.1 * Rabs (z p)) /\
    Rabs (mx p) <= 55 /\ Rabs (my p) <= 55 /\ Rabs (mz p) <= 55.
Proof.
  intros Hr Hfs.
  pose proof (play_invariant
    (fun p => (-50 <= x p < 50 /\ -50 <= y p < 50 /\ -50 <= z p < 50) /\
              Rabs (mx p) <= 1.1 * Rabs (x p) /\
              Rabs (my p) <= 1.1 * Rabs (y p) /\
              Rabs (mz p) <= 1.1 * Rabs (z p))
    (fun config => mode config = GATHER -> 0 <= speed config <= 20) fs)
    as Hinv.
  cbv beta in Hinv.
  assert (Hall : Forall
            (fun p => (-50 <= x p < 50 /\ -50 <= y p < 50 /\ -50 <= z p < 50) /\
                      Rabs (mx p) <= 1.1 * Rabs (x p) /\
                      Rabs (my p) <= 1.1 * Rabs (y p) /\
                      Rabs (mz p) <= 1.1 * Rabs (z p))
            (particles (play fs (mkState (initParticles r n) d mesh)))).
  { apply Hinv.
    - intros config p Hs [Hseed Hb].
      destruct (switchMode_seed (mode config) (speed config) 0 0%nat p
                  newObject3D) as (Hx & Hy & Hz & _).
      split.
      + rewrite Hx, Hy, Hz. exact Hseed.
      + apply switchMode_drift_bound; assumption.
    - exact Hfs.
    - cbn [particles]. apply Forall_forall. intros p Hin.
      unfold initParticles in Hin. apply in_map_iff in Hin as [i [<- _]].
      split; [exact (newParticle_seed r i Hr) |].
      cbn [newParticle mx my mz]. rewrite Rabs_R0.
      repeat split; apply Rmult_le_pos; try lra; apply Rabs_pos. }
  intros p Hin. rewrite Forall_forall in Hall.
  destruct (Hall p Hin) as [(Hx & Hy & Hz) (Hbx & Hby & Hbz)].
  split; [repeat split; assumption |].
  assert (Hax : Rabs (x p) <= 50) by (apply Rabs_le; lra).
  assert (Hay : Rabs (y p) <= 50) by (apply Rabs_le; lra).
  assert (Haz : Rabs (z p) <= 50) by (apply Rabs_le; lra).
  repeat split; lra.
Qed.

Lemma drift_stays_bounded_witness :
  Rabs (mx (fst (switchMode FLOAT 3 0 0 (newParticle (fun _ => 0.5) 0)
                   newObject3D))) <= 55.
Proof.
  refine (proj1 (proj2
    (drift_stays_bounded (fun _ => 0.5) 1 [(mkConfig FLOAT "#00ffff" 3 1 1, 0)]
       newObject3D (Some (mkMesh [None] false)) _ _
       (fst (switchMode FLOAT 3 0 0 (newParticle (fun _ => 0.5) 0)
               newObject3D)) _))).
  - intros k. lra.
  - intros config time [H | []]. injection H as <- _. discriminate.
  - left. reflexivity.
Defined.

Lemma play_nth fs :
  forall s mesh k p,
    meshRef s = Some mesh ->
    nth_error (particles s) k = Some p ->
    nth_error (particles (play fs s)) k
    = Some (fold_left
              (fun q (f : ParticleConfig * R) => fst (switchMode (mode (fst f)) (speed (fst f)) 0 0 q
                                 newObject3D)) fs p).
Proof.
  induction fs as [| [config time] rest IH]; intros s mesh k p Hm Hk.
  - exact Hk.
  - cbn [play fold_left fst].
    destruct (useFrame_meshRef config time s mesh Hm) as [mesh' Hm'].
    apply (IH _ mesh' k); [exact Hm' |].
    rewrite (useFrame_particles config time s mesh Hm), nth_error_map, Hk.
    reflexivity.
Qed.

Lemma fold_phase fs :
  forall p,
    t (fold_left
         (fun q (f : ParticleConfig * R) => fst (switchMode (mode (fst f)) (speed (fst f)) 0 0 q
                            newObject3D)) fs p)
    = t p
      + fold_right
          (fun (f : ParticleConfig * R) acc =>
             (if String.eqb (mode (fst f)) FLOAT then speed (fst f) * 0.5
              else 0) + acc) 0 fs.
Proof.
  induction fs as [| [config time] rest IH]; intros p.
  - cbn. lra.
  - cbn [fold_left fold_right fst]. rewrite IH.
    destruct (String.eqb_spec (mode config) FLOAT) as [-> | Hne].
    + rewrite switchMode_float. lra.
    + rewrite switchMode_other_phase by assumption. lra.
Qed.

(** X10. Over any run of frames with a mounted mesh, a particle's phase
    grows by half the speed of every FLOAT frame and by nothing on the
    frames of the other modes; so with speeds that are not negative it
    never decreases. *)
Theorem phase_counts_float_frames fs s mesh k p :
  meshRef s = Some mesh ->
  nth_error (particles s) k = Some p ->
  exists p',
    nth_error (particles (play fs s)) k = Some p' /\
    t p' = t p
           + fold_right
               (fun (f : ParticleConfig * R) acc =>
                  (if String.eqb (mode (fst f)) FLOAT then speed (fst f) * 0.5
                   else 0) + acc) 0 fs /\
    ((forall f, In f fs -> 0 <= speed (fst f)) -> t p <= t p').
Proof.
  intros Hm Hk. eexists. split; [eapply play_nth; eassumption |].
  rewrite fold_phase. split; [reflexivity |].
  intros Hpos.
  assert (H : 0 <= fold_right
                     (fun (f : ParticleConfig * R) acc =>
                        (if String.eqb (mode (fst f)) FLOAT
                         then speed (fst f) * 0.5 else 0) + acc) 0 fs).
  { clear Hk. induction fs as [| f rest IH]; cbn [fold_right]; [lra |].
    pose proof (Hpos f (or_introl eq_refl)).
    assert (0 <= fold_right
                   (fun (f : ParticleConfig * R) acc =>
                      (if String.eqb (mode (fst f)) FLOAT
                       then speed (fst f) * 0.5 else 0) + acc) 0 rest)
      by (apply IH; intros g Hg; apply Hpos; now right).
    destruct (String.eqb (mode (fst f)) FLOAT); lra. }
  lra.
Qed.

Lemma phase_counts_float_frames_witness :
  exists p',
    nth_error
      (particles (play [(mkConfig FLOAT "#00ffff" 2 1 1, 0);
                        (mkConfig RAIN "#00ffff" 7 1 1, 1);
                        (mkConfig FLOAT "#00ffff" 4 1 1, 2)]
                    (mkState [mkParticle 10 20 0.01 1 2 3 0 0 0] newObject3D
                       (Some (mkMesh [None] false))))) 0
    = Some p' /\
    t p' = 10 + (2 * 0.5 + (0 + (4 * 0.5 + 0))).
Proof.
  destruct (phase_counts_float_frames
              [(mkConfig FLOAT "#00ffff" 2 1 1, 0);
               (mkConfig RAIN "#00ffff" 7 1 1, 1);
               (mkConfig FLOAT "#00ffff" 4 1 1, 2)]
              (mkState [mkParticle 10 20 0.01 1 2 3 0 0 0] newObject3D
                 (Some (mkMesh [None] false)))
              (mkMesh [None] false) 0%nat (mkParticle 10 20 0.01 1 2 3 0 0 0)
              eq_refl eq_refl) as (p' & Hnth & Ht & _).
  exists p'. split; [exact Hnth | exact Ht].
Defined.

End SceneCoverage.

(** * Further properties of the handlers *)

Section AppCoverage.
Import App GestureTable.

(** ** The log *)

(** X11. Adding a log line keeps the last four lines there were, in order,
    puts the new one after them and touches nothing else, so the log never
    holds more than five lines. *)
Theorem addLog_keeps_last_four s entry :
  exists s' older recent,
    reduce s (AddLog entry) = Js.Return s' /\
    logs s = older ++ recent /\
    List.length recent = Nat.min 4 (List.length (logs s)) /\
    logs s' = recent ++ [entry] /\
    (List.length (logs s') <= 5)%nat /\
    App.config s' = App.config s /\
    currentGesture s' = currentGesture s.
Proof.
  eexists. exists (firstn (List.length (logs s) - 4) (logs s)),
    (slice_last 4 (logs s)).
  split; [reflexivity |]. cbn [logs App.config currentGesture].
  unfold slice_last.
  assert (Hlen : List.length (skipn (List.length (logs s) - 4) (logs s))
                 = Nat.min 4 (List.length (logs s))).
  { rewrite length_skipn. lia. }
  repeat split.
  - symmetry. apply firstn_skipn.
  - exact Hlen.
  - rewrite length_app, Hlen. cbn [List.length]. lia.
Qed.

(** ** Gestures *)

Lemma analyzeGesture_trace_long config cg lm :
  (21 <= List.length lm)%nat ->
  analyzeGesture config cg lm = (writes config cg (classify lm), Js.Return tt).
Proof.
  intros H.
  do 21 (destruct lm as [| ? lm]; [cbn [List.length] in H; lia |]).
  clear H.
  unfold analyzeGesture, classify, precedence, first_match, writes,
    is_pinch, is_fist, is_peace, is_point, is_open_palm,
    index_up, middle_up, ring_up, pinky_up, extended, point, distance.
  cbn [nth_error nth isUp get_x get_y bind ret App.x App.y app].
  match goal with
  | |- context [Js.ltb (sqrt ?d) 0.05] => destruct (Js.ltb (sqrt d) 0.05)
  end.
  - cbn [bind emit ret app fst snd label mode_of size_of].
    rewrite String.eqb_refl. cbn [negb bind ret app].
    destruct (String.eqb cg "PINCH (Resize)"); reflexivity.
  - repeat match goal with
           | |- context [Js.ltb (y ?a) (y ?b)] =>
               destruct (Js.ltb (y a) (y b))
           end;
      cbn [negb andb bind emit ret app fst snd label mode_of size_of];
      match goal with
      | |- context [String.eqb ?m (mode config)] =>
          destruct (String.eqb m (mode config))
      end;
      cbn [negb andb bind emit ret app fst snd];
      match goal with
      | |- context [String.eqb cg ?l] => destruct (String.eqb cg l)
      end; reflexivity.
Qed.

Lemma analyzeGesture_short config cg lm :
  (List.length lm < 21)%nat ->
  analyzeGesture config cg lm = ([], Js.Throw Js.TypeError).
Proof.
  intros Hlen.
  do 21 (destruct lm as [| ? lm]; [reflexivity |]).
  cbn [List.length] in Hlen. lia.
Qed.

(** The effects of any frame, whatever the hand. *)
Lemma analyzeGesture_effects config cg lm :
  fst (analyzeGesture config cg lm) = []
  \/ fst (analyzeGesture config cg lm) = writes config cg (classify lm).
Proof.
  destruct (Nat.lt_ge_cases (List.length lm) 21) as [Hs | Hl].
  - left. now rewrite analyzeGesture_short.
  - right. now rewrite analyzeGesture_trace_long.
Qed.

(** The state the writes of a gesture lead to. *)
Lemma reduceAll_writes s config cg g :
  reduceAll s (writes config cg g)
  = Js.Return
      (mkApp
         (mkGlobal
            (match mode_of g with
             | Some m => if String.eqb m (mode config) then mode (App.config s)
                         else m
             | None => mode (App.config s)
             end)
            (color (App.config s)) (speed (App.config s))
            (count (App.config s))
            (match size_of g with
             | Some v => v
             | None => size (App.config s)
             end))
         (if String.eqb cg (label g)
          then match mode_of g with
               | Some m => if String.eqb m (mode config) then currentGesture s
                           else label g
               | None => currentGesture s
               end
          else label g)
         (logs s)).
Proof.
  destruct s as [[m c sp n sz] g0 l]. unfold writes.
  destruct g; cbn [size_of mode_of label];
    repeat match goal with
           | |- context [String.eqb ?a ?b] => destruct (String.eqb a b)
           end; reflexivity.
Qed.

(** X12. A gesture frame, whatever the landmarks and whatever configuration
    and label its closure holds, leaves the color, the speed, the particle
    count and the log of the state untouched, and the updates it queues
    never throw. *)
Theorem analyzeGesture_keeps_voice_fields config cg lm s :
  exists s',
    reduceAll s (fst (analyzeGesture config cg lm)) = Js.Return s' /\
    color (App.config s') = color (App.config s) /\
    speed (App.config s') = speed (App.config s) /\
    count (App.config s') = count (App.config s) /\
    logs s' = logs s.
Proof.
  destruct (analyzeGesture_effects config cg lm) as [-> | ->].
  - exists s. repeat split.
  - rewrite reduceAll_writes. eexists. split; [reflexivity |].
    repeat split.
Qed.

Lemma reduceAll_app es es' :
  forall s,
    reduceAll s (es ++ es')
    = Js.bind (reduceAll s es) (fun s' => reduceAll s' es').
Proof.
  induction es as [| e rest IH]; intros s; cbn [app reduceAll].
  - reflexivity.
  - destruct (reduce s e) as [s1 | err]; cbn [Js.bind]; [apply IH |].
    reflexivity.
Qed.

(** Applying the writes of a gesture a second time, decided against the
    same configuration and label, changes nothing. *)
Lemma reduceAll_writes_again s config cg g s1 :
  reduceAll s (writes config cg g) = Js.Return s1 ->
  reduceAll s1 (writes config cg g) = Js.Return s1.
Proof.
  rewrite reduceAll_writes. intros H. injection H as <-.
  rewrite reduceAll_writes. destruct s as [[m0 c sp n sz] g0 l].
  cbn [App.config currentGesture logs mode color speed count size].
  destruct g; cbn [mode_of size_of label];
    repeat match goal with
           | |- context [String.eqb ?a ?b] => destruct (String.eqb a b)
           end; reflexivity.
Qed.

Lemma visionLoop_held config cg hand n :
  (21 <= List.length hand)%nat ->
  forall s,
    reduceAll s (writes config cg (classify hand)) = Js.Return s ->
    visionLoop config cg (repeat (true, Some [hand]) n) s
    = (repeat (writes config cg (classify hand) ++ [RequestAnimationFrame]) n,
       Js.Return s).
Proof.
  intros Hlen s Hs. induction n as [| n IH]; [reflexivity |].
  cbn [repeat visionLoop predictWebcam negb].
  rewrite (analyzeGesture_trace_long config cg hand Hlen).
  cbn [bind emit]. rewrite reduceAll_app, Hs. cbn [Js.bind reduceAll reduce].
  rewrite IH. reflexivity.
Qed.

(** X13. In a session the frame loop decides its writes against the
    configuration and the label of the state the session was started in.
    So a hand of at least 21 landmarks held over several frames repeats the
    same writes on every frame, and the state after the first frame, with
    the mode, the size and the label of the gesture (the mode kept for
    PINCH), is the state after all of them. *)
Theorem held_gesture_repeats_its_writes s hand n :
  (21 <= List.length hand)%nat ->
  exists s1,
    startSession s (repeat (true, Some [hand]) (S n))
    = (repeat (writes (App.config s) (currentGesture s) (classify hand)
               ++ [RequestAnimationFrame]) (S n),
       Js.Return s1) /\
    reduceAll s (writes (App.config s) (currentGesture s) (classify hand))
    = Js.Return s1 /\
    mode (App.config s1)
    = match mode_of (classify hand) with
      | Some m => m
      | None => mode (App.config s)
      end /\
    size (App.config s1)
    = match size_of (classify hand) with
      | Some v => v
      | None => size (App.config s)
      end /\
    currentGesture s1 = label (classify hand).
Proof.
  intros Hlen.
  destruct (reduceAll s (writes (App.config s) (currentGesture s)
                           (classify hand))) as [s1 | e] eqn:Hrun;
    [| rewrite reduceAll_writes in Hrun; discriminate Hrun].
  exists s1. split; [| split; [reflexivity |]].
  - unfold startSession. cbn [repeat visionLoop predictWebcam negb].
    rewrite (analyzeGesture_trace_long _ _ hand Hlen).
    cbn [bind emit]. rewrite reduceAll_app, Hrun.
    cbn [Js.bind reduceAll reduce].
    rewrite (visionLoop_held _ _ hand n Hlen s1
               (reduceAll_writes_again _ _ _ _ _ Hrun)).
    reflexivity.
  - rewrite reduceAll_writes in Hrun. injection Hrun as <-.
    destruct s as [[m0 c sp k sz] g0 l].
    cbn [App.config currentGesture logs mode color speed count size].
    destruct (classify hand); cbn [mode_of size_of label];
      repeat match goal with
             | |- context [String.eqb ?a m0] => destruct (String.eqb_spec a m0)
             | |- context [String.eqb g0 ?b] => destruct (String.eqb_spec g0 b)
             end; subst; repeat split; congruence.
Qed.

Lemma held_gesture_repeats_its_writes_witness :
  exists s1,
    startSession (mkApp initialConfig "None" [])
      (repeat (true, Some [repeat (mkLandmark 0 0 0) 21]) 3)
    = (repeat (writes initialConfig "None"
                 (classify (repeat (mkLandmark 0 0 0) 21))
               ++ [RequestAnimationFrame]) 3,
       Js.Return s1) /\
    currentGesture s1 = label (classify (repeat (mkLandmark 0 0 0) 21)).
Proof.
  destruct (held_gesture_repeats_its_writes (mkApp initialConfig "None" [])
              (repeat (mkLandmark 0 0 0) 21) 2)
    as (s1 & Hrun & _ & _ & _ & Hlabel).
  - cbn [repeat List.length]. lia.
  - exists s1. split; [exact Hrun | exact Hlabel].
Defined.

(** X14. The frame loop requests the next frame exactly once, as its last
    step, whenever it does not throw: alone when the video or the model is
    not ready or no hand was found, and after the writes of the first hand
    otherwise; the other hands are not looked at. *)
Theorem predictWebcam_requests_next_frame config cg hand others :
  (21 <= List.length hand)%nat ->
  (forall landmarks,
      predictWebcam config cg false landmarks
      = ([RequestAnimationFrame], Js.Return tt)) /\
  predictWebcam config cg true None = ([RequestAnimationFrame], Js.Return tt) /\
  predictWebcam config cg true (Some [])
  = ([RequestAnimationFrame], Js.Return tt) /\
  predictWebcam config cg true (Some (hand :: others))
  = (writes config cg (classify hand) ++ [RequestAnimationFrame],
     Js.Return tt).
Proof.
  intros Hlen. repeat split.
  unfold predictWebcam. cbn [negb].
  rewrite (analyzeGesture_trace_long config cg hand Hlen). reflexivity.
Qed.

Lemma predictWebcam_requests_next_frame_witness :
  predictWebcam initialConfig "None" true
    (Some [repeat (mkLandmark 0 0 0) 21; []])
  = (writes initialConfig "None" (classify (repeat (mkLandmark 0 0 0) 21))
     ++ [RequestAnimationFrame],
     Js.Return tt).
Proof.
  refine (proj2 (proj2 (proj2
    (predictWebcam_requests_next_frame initialConfig "None"
       (repeat (mkLandmark 0 0 0) 21) [[]] _)))).
  cbn [repeat List.length]. lia.
Defined.

(** *** The order of the table *)

Lemma first_match_permutation h table table' :
  Permutation table table' ->
  (forall f g f' g',
      In (f, g) table -> In (f', g') table ->
      f h = true -> f' h = true -> g = g') ->
  first_match table h = first_match table' h.
Proof.
  intros Hperm. induction Hperm as [| [f g] l l' Hp IH
                                    | [f g] [f' g'] l
                                    | l l' l'' Hp1 IH1 Hp2 IH2];
    intros Hex.
  - reflexivity.
  - cbn [first_match]. destruct (f h); [reflexivity |].
    apply IH. intros f1 g1 f2 g2 H1 H2 Hf1 Hf2.
    apply (Hex f1 g1 f2 g2); [now right | now right | exact Hf1 | exact Hf2].
  - cbn [first_match]. destruct (f h) eqn:Hf, (f' h) eqn:Hf';
      try reflexivity.
    apply (Hex f' g' f g); [now left | right; now left | exact Hf' | exact Hf].
  - rewrite IH1 by exact Hex. apply IH2.
    intros f g f' g' Hin Hin'. apply Hex;
      eapply Permutation_in; try eassumption; now apply Permutation_sym.
Qed.

Lemma later_rows_exclusive h f g f' g' :
  In (f, g) [(is_fist, FIST); (is_peace, PEACE); (is_point, POINT);
             (is_open_palm, OPEN_PALM)] ->
  In (f', g') [(is_fist, FIST); (is_peace, PEACE); (is_point, POINT);
               (is_open_palm, OPEN_PALM)] ->
  f h = true -> f' h = true -> g = g'.
Proof.
  cbn [In]. intros Hin Hin'.
  repeat match goal with
         | H : _ \/ _ |- _ => destruct H as [H | H]
         | H : False |- _ => destruct H
         | H : (_, _) = (_, _) |- _ => injection H as <- <-
         end; try reflexivity;
    unfold is_fist, is_peace, is_point, is_open_palm;
    destruct (index_up h), (middle_up h), (ring_up h), (pinky_up h);
    cbn; intros; congruence.
Qed.

(** X15. The four tests after the pinch test exclude one another, so their
    order does not matter: on a 21-point hand the handler does what any
    table does that starts with PINCH and lists FIST, PEACE, POINT and
    OPEN_PALM in any order. Only the place of PINCH counts. *)
Theorem later_gestures_order_is_irrelevant config cg lm table :
  (21 <= List.length lm)%nat ->
  Permutation [(is_fist, FIST); (is_peace, PEACE); (is_point, POINT);
               (is_open_palm, OPEN_PALM)] table ->
  analyzeGesture config cg lm
  = (writes config cg (first_match ((is_pinch, PINCH) :: table) lm),
     Js.Return tt).
Proof.
  intros Hlen Hperm. rewrite (analyzeGesture_trace_long config cg lm Hlen).
  assert (Hg : classify lm = first_match ((is_pinch, PINCH) :: table) lm).
  { transitivity
      (if is_pinch lm then PINCH
       else first_match [(is_fist, FIST); (is_peace, PEACE); (is_point, POINT);
                         (is_open_palm, OPEN_PALM)] lm); [reflexivity |].
    transitivity (if is_pinch lm then PINCH else first_match table lm);
      [| reflexivity].
    destruct (is_pinch lm); [reflexivity |].
    apply first_match_permutation; [exact Hperm |].
    intros f g f' g'. apply later_rows_exclusive. }
  now rewrite Hg.
Qed.

Lemma later_gestures_order_is_irrelevant_witness :
  analyzeGesture initialConfig "None" (repeat (mkLandmark 0 0 0) 21)
  = (writes initialConfig "None"
       (first_match [(is_pinch, PINCH); (is_open_palm, OPEN_PALM);
                     (is_point, POINT); (is_peace, PEACE); (is_fist, FIST)]
          (repeat (mkLandmark 0 0 0) 21)),
     Js.Return tt).
Proof.
  refine (later_gestures_order_is_irrelevant initialConfig "None"
            (repeat (mkLandmark 0 0 0) 21)
            [(is_open_palm, OPEN_PALM); (is_point, POINT); (is_peace, PEACE);
             (is_fist, FIST)] _ _).
  - cbn [repeat List.length]. lia.
  - apply Permutation_rev.
Defined.

(** ** Voice tool calls *)

(** The outcomes of one call: its effects never include a response being
    sent, and when it completes its response is "ok" under the call's id
    and name. *)
Lemma handleCall_outcomes call :
  (forall rs, ~ In (SendToolResponse rs) (fst (handleCall call))) /\
  (forall r, snd (handleCall call) = Js.Return r ->
             r = mkResponse (id call) (name call) "ok").
Proof.
  unfold handleCall.
  destruct (String.eqb (name call) "setParticleColor");
    [| destruct (String.eqb (name call) "setParticleSpeed")];
    destruct (args call); cbn; split;
    try (intros rs H;
         repeat match goal with
                | H : _ \/ _ |- _ => destruct H as [H | H]
                end; try discriminate H; exact H);
    intros resp H; try discriminate H; now injection H as <-.
Qed.

Lemma forCalls_outcomes calls :
  forall acc,
    (forall rs, ~ In (SendToolResponse rs) (fst (forCalls calls acc))) /\
    (forall rs, snd (forCalls calls acc) = Js.Return rs ->
                rs = acc ++ map (fun call =>
                                   mkResponse (id call) (name call) "ok")
                                calls).
Proof.
  induction calls as [| call rest IH]; intros acc.
  - cbn. split; [tauto |]. intros rs H. injection H as <-.
    now rewrite app_nil_r.
  - cbn [forCalls map].
    destruct (handleCall_outcomes call) as [Hno Hret].
    destruct (handleCall call) as [es [r | err]]; cbn [fst snd bind] in *.
    + specialize (IH (acc ++ [r])). rewrite (Hret r eq_refl) in *.
      destruct (forCalls rest _) as [es' c]. cbn [fst snd] in *.
      destruct IH as [IHno IHret]. split.
      * intros rs H. apply in_app_or in H as [H | H];
          [exact (Hno rs H) | exact (IHno rs H)].
      * intros rs H. rewrite (IHret rs H), <- app_assoc. reflexivity.
    + split; [exact Hno | intros rs H; discriminate H].
Qed.

(** X16. A response is sent only at the very end of a batch, only with a
    session, and only when no call of the batch threw; it then carries one
    "ok" answer per call, in order, under the calls' ids. A batch that
    throws sends nothing, also for the calls handled before the throw. *)
Theorem tool_response_is_sent_last_or_never session calls rs :
  In (SendToolResponse rs) (fst (handleToolCalls session calls)) ->
  session = true /\
  snd (handleToolCalls session calls) = Js.Return tt /\
  rs = map (fun call => mkResponse (id call) (name call) "ok") calls /\
  exists before,
    fst (handleToolCalls session calls) = before ++ [SendToolResponse rs] /\
    forall rs', ~ In (SendToolResponse rs') before.
Proof.
  unfold handleToolCalls.
  destruct (forCalls_outcomes calls []) as [Hno Hret].
  destruct (forCalls calls []) as [es [responses | err]];
    cbn [fst snd bind] in *.
  - specialize (Hret responses eq_refl). cbn [app] in Hret. subst responses.
    destruct session; cbn [emit ret fst snd].
    + intros H. apply in_app_or in H as [H | H]; [destruct (Hno rs H) |].
      destruct H as [H | []]. injection H as <-.
      repeat split. exists es. split; [reflexivity | exact Hno].
    + rewrite app_nil_r. intros H. destruct (Hno rs H).
  - intros H. destruct (Hno rs H).
Qed.

Lemma tool_response_is_sent_last_or_never_witness :
  snd (handleToolCalls true
         [mkCall "setParticleColor"
            (Js.Obj [("color"%string, Js.Str "red")]) (Js.Str "a");
          mkCall "other" Js.Undefined (Js.Str "b")])
  = Js.Return tt.
Proof.
  refine (proj1 (proj2
    (tool_response_is_sent_last_or_never true
       [mkCall "setParticleColor"
          (Js.Obj [("color"%string, Js.Str "red")]) (Js.Str "a");
        mkCall "other" Js.Undefined (Js.Str "b")]
       [mkResponse (Js.Str "a") "setParticleColor" "ok";
        mkResponse (Js.Str "b") "other" "ok"] _))).
  cbn. right. right. left. reflexivity.
Defined.

(** X17. A call to a tool other than the two known ones reads no argument
    and changes nothing: a batch of such calls, with any arguments or none,
    never throws, queues no update and no log line, and is answered "ok"
    call by call when there is a session. *)
Theorem unknown_tools_are_acknowledged session calls :
  (forall call, In call calls ->
                name call <> "setParticleColor"%string /\
                name call <> "setParticleSpeed"%string) ->
  handleToolCalls session calls
  = ((if session then
        [SendToolResponse
           (map (fun call => mkResponse (id call) (name call) "ok") calls)]
      else []),
     Js.Return tt).
Proof.
  intros Hnames.
  assert (H : forall acc,
             forCalls calls acc
             = ([], Js.Return
                      (acc ++ map (fun call =>
                                     mkResponse (id call) (name call) "ok")
                                  calls))).
  { induction calls as [| call rest IH]; intros acc.
    - cbn. now rewrite app_nil_r.
    - cbn [forCalls map]. unfold handleCall.
      destruct (Hnames call (or_introl eq_refl)) as [Hc Hs].
      rewrite (eqb_neq_false _ _ Hc), (eqb_neq_false _ _ Hs).
      cbn [bind ret app].
      rewrite IH by (intros c Hin; apply Hnames; now right).
      now rewrite <- app_assoc. }
  unfold handleToolCalls. rewrite H. cbn [bind app].
  destruct session; reflexivity.
Qed.

Lemma unknown_tools_are_acknowledged_witness :
  handleToolCalls true [mkCall "setParticleSize" Js.Undefined (Js.Str "c1")]
  = ([SendToolResponse [mkResponse (Js.Str "c1") "setParticleSize" "ok"]],
     Js.Return tt).
Proof.
  refine (unknown_tools_are_acknowledged true
            [mkCall "setParticleSize" Js.Undefined (Js.Str "c1")] _).
  intros call [<- | []]. split; discriminate.
Defined.

(** The state a batch with readable arguments leads to: the color and the
    speed are those of the last call that sets them, the log grows by a
    function of the log alone, and the rest stays. *)
Lemma reduce_tool_effects calls :
  (forall call, In call calls ->
                args call <> Js.Undefined /\ args call <> Js.Null) ->
  exists grow : list LogEntry -> list LogEntry,
    forall s,
      reduceAll s (flat_map (fun call => fst (handleCall call)) calls)
      = Js.Return
          (mkApp
             (mkGlobal (mode (App.config s))
                (fold_left
                   (fun c call =>
                      if String.eqb (name call) "setParticleColor"
                      then Js.prop (args call) "color" else c)
                   calls (color (App.config s)))
                (fold_left
                   (fun c call =>
                      if String.eqb (name call) "setParticleSpeed"
                      then Js.prop (args call) "speed" else c)
                   calls (speed (App.config s)))
                (count (App.config s)) (size (App.config s)))
             (currentGesture s) (grow (logs s))).
Proof.
  induction calls as [| call rest IH]; intros Hargs.
  - exists (fun l => l). intros [[m c sp n sz] g l]. reflexivity.
  - destruct IH as [grow IH]; [intros c Hc; apply Hargs; now right |].
    destruct (Hargs call (or_introl eq_refl)) as [Hu Hn].
    cbn [flat_map fold_left]. rewrite (handleCall_defined call Hu Hn).
    cbn [fst].
    destruct (String.eqb_spec (name call) "setParticleColor") as [Hc | Hc];
      [rewrite Hc; cbn [String.eqb Ascii.eqb Bool.eqb]
      | destruct (String.eqb (name call) "setParticleSpeed")].
    + eexists (fun l => grow (slice_last 4 l ++ [_])).
      intros s. rewrite reduceAll_app. cbn [reduceAll reduce runUpdater].
      rewrite (get_defined _ _ Hu Hn). cbn [Js.bind]. rewrite IH.
      reflexivity.
    + eexists (fun l => grow (slice_last 4 l ++ [_])).
      intros s. rewrite reduceAll_app. cbn [reduceAll reduce runUpdater].
      rewrite (get_defined _ _ Hu Hn). cbn [Js.bind]. rewrite IH.
      reflexivity.
    + exists grow. intros s. cbn [app]. apply IH.
Qed.

Lemma handleToolCalls_effects session calls :
  (forall call, In call calls ->
                args call <> Js.Undefined /\ args call <> Js.Null) ->
  fst (handleToolCalls session calls)
  = flat_map (fun call => fst (handleCall call)) calls
    ++ (if session then
          [SendToolResponse
             (map (fun call => mkResponse (id call) (name call) "ok") calls)]
        else []).
Proof.
  intros Hargs. unfold handleToolCalls.
  rewrite (forCalls_defined calls Hargs). cbn [bind app fst].
  destruct session; reflexivity.
Qed.

Lemma reduceAll_tool_calls session calls :
  (forall call, In call calls ->
                args call <> Js.Undefined /\ args call <> Js.Null) ->
  exists grow : list LogEntry -> list LogEntry,
    forall s,
      reduceAll s (fst (handleToolCalls session calls))
      = Js.Return
          (mkApp
             (mkGlobal (mode (App.config s))
                (fold_left
                   (fun c call =>
                      if String.eqb (name call) "setParticleColor"
                      then Js.prop (args call) "color" else c)
                   calls (color (App.config s)))
                (fold_left
                   (fun c call =>
                      if String.eqb (name call) "setParticleSpeed"
                      then Js.prop (args call) "speed" else c)
                   calls (speed (App.config s)))
                (count (App.config s)) (size (App.config s)))
             (currentGesture s) (grow (logs s))).
Proof.
  intros Hargs. destruct (reduce_tool_effects calls Hargs) as [grow Hgrow].
  exists grow. intros s.
  rewrite (handleToolCalls_effects session calls Hargs), reduceAll_app, Hgrow.
  cbn [Js.bind]. destruct session; reflexivity.
Qed.



(** X19. Gesture writes and voice writes do not disturb each other: the
    updates of a gesture frame and those of a batch of readable tool calls
    lead to the same state in either order, and neither order throws. *)
Theorem gesture_and_voice_updates_commute config cg lm session calls s :
  (forall call, In call calls ->
                args call <> Js.Undefined /\ args call <> Js.Null) ->
  reduceAll s (fst (analyzeGesture config cg lm)
               ++ fst (handleToolCalls session calls))
  = reduceAll s (fst (handleToolCalls session calls)
                 ++ fst (analyzeGesture config cg lm)) /\
  exists s',
    reduceAll s (fst (analyzeGesture config cg lm)
                 ++ fst (handleToolCalls session calls))
    = Js.Return s'.
Proof.
  intros Hargs.
  destruct (reduceAll_tool_calls session calls Hargs) as [grow Hgrow].
  rewrite !reduceAll_app, Hgrow. cbn [Js.bind].
  destruct (analyzeGesture_effects config cg lm) as [-> | ->].
  - cbn [reduceAll Js.bind]. rewrite Hgrow. split; [reflexivity | eauto].
  - rewrite !reduceAll_writes. cbn [Js.bind]. rewrite Hgrow.
    split; [reflexivity | eauto].
Qed.

Lemma gesture_and_voice_updates_commute_witness :
  exists s',
    reduceAll (mkApp initialConfig "None" [])
      (fst (analyzeGesture initialConfig "None" (repeat (mkLandmark 0 0 0) 21))
       ++ fst (handleToolCalls true
                 [mkCall "setParticleColor"
                    (Js.Obj [("color"%string, Js.Str "red")]) (Js.Str "a")]))
    = Js.Return s'.
Proof.
  refine (proj2
    (gesture_and_voice_updates_commute initialConfig "None"
       (repeat (mkLandmark 0 0 0) 21) true
       [mkCall "setParticleColor"
          (Js.Obj [("color"%string, Js.Str "red")]) (Js.Str "a")]
       (mkApp initialConfig "None" []) _)).
  intros call [<- | []]. split; discriminate.
Defined.

(** ** Audio playback *)

Lemma StronglySorted_snoc {A} (Rel : A -> A -> Prop) l a :
  StronglySorted Rel l -> Forall (fun b => Rel b a) l ->
  StronglySorted Rel (l ++ [a]).
Proof.
  induction 1 as [| b l Hs IH Hb]; intros Hall; cbn [app].
  - repeat constructor.
  - inversion Hall; subst. constructor; [auto |].
    apply Forall_app. split; [exact Hb | now constructor].
Qed.

Lemma audioStep_invariant lo p st :
  (forall d, st = Resume (Some d) -> 0 <= d) ->
  StronglySorted (fun a b => fst a + snd a <= fst b) (started p) /\
  Forall (fun a => lo <= fst a /\ fst a + snd a <= nextStartTime p)
         (started p) /\
  lo <= nextStartTime p ->
  StronglySorted (fun a b => fst a + snd a <= fst b)
                 (started (audioStep p st)) /\
  Forall (fun a => lo <= fst a /\
                   fst a + snd a <= nextStartTime (audioStep p st))
         (started (audioStep p st)) /\
  lo <= nextStartTime (audioStep p st).
Proof.
  intros Hd (Hsorted & Hends & Hlo).
  destruct st as [[currentTime |] | [duration |]];
    cbn [audioStep playAudioChunk_enter playAudioChunk_resume
         started nextStartTime]; auto.
  - pose proof (Rmax_l (nextStartTime p) currentTime).
    repeat split; [exact Hsorted | | lra].
    eapply Forall_impl; [| exact Hends]. cbv beta. intros a Ha. lra.
  - specialize (Hd duration eq_refl). repeat split; [| | lra].
    + apply StronglySorted_snoc; [exact Hsorted |].
      eapply Forall_impl; [| exact Hends]. cbn [fst]. intros a Ha. lra.
    + apply Forall_app. split.
      * eapply Forall_impl; [| exact Hends]. cbv beta. intros a Ha. lra.
      * constructor; [cbn [fst snd]; lra | constructor].
Qed.

(** X20. However the two halves of the playback calls in flight interleave,
    and whichever chunks fail to decode, the chunks handed to the audio
    context never overlap: each one starts at or after the end of every
    one started before it, none starts before the cursor the run began
    with, and the cursor is at or after the end of all of them. Durations
    are taken not to be negative. *)
Theorem audio_chunks_never_overlap steps p0 :
  started p0 = [] ->
  (forall d, In (Resume (Some d)) steps -> 0 <= d) ->
  StronglySorted (fun a b => fst a + snd a <= fst b)
                 (started (fold_left audioStep steps p0)) /\
  Forall (fun a => nextStartTime p0 <= fst a /\
                   fst a + snd a
                   <= nextStartTime (fold_left audioStep steps p0))
         (started (fold_left audioStep steps p0)) /\
  nextStartTime p0 <= nextStartTime (fold_left audioStep steps p0).
Proof.
  intros Hempty Hdur.
  assert (Hgen : forall p,
             StronglySorted (fun a b => fst a + snd a <= fst b) (started p) /\
             Forall (fun a => nextStartTime p0 <= fst a /\
                              fst a + snd a <= nextStartTime p) (started p) /\
             nextStartTime p0 <= nextStartTime p ->
             StronglySorted (fun a b => fst a + snd a <= fst b)
                            (started (fold_left audioStep steps p)) /\
             Forall (fun a => nextStartTime p0 <= fst a /\
                              fst a + snd a
                              <= nextStartTime (fold_left audioStep steps p))
                    (started (fold_left audioStep steps p)) /\
             nextStartTime p0 <= nextStartTime (fold_left audioStep steps p)).
  { induction steps as [| st rest IH]; intros p Hp; cbn [fold_left];
      [exact Hp |].
    apply IH; [intros d Hin; apply Hdur; now right |].
    apply audioStep_invariant; [| exact Hp].
    intros d ->. apply Hdur. now left. }
  apply Hgen. rewrite Hempty. repeat split; [constructor | constructor | lra].
Qed.

Lemma audio_chunks_never_overlap_witness :
  StronglySorted (fun a b => fst a + snd a <= fst b)
    (started (fold_left audioStep
                [Enter (Some 1); Enter (Some 2); Resume (Some 0.5);
                 Resume None; Resume (Some 0.25)]
                (mkPlayback 0 []))).
Proof.
  refine (proj1
    (audio_chunks_never_overlap
       [Enter (Some 1); Enter (Some 2); Resume (Some 0.5); Resume None;
        Resume (Some 0.25)] (mkPlayback 0 []) eq_refl _)).
  intros d H. cbn [In] in H.
  repeat match goal with
         | H : _ \/ _ |- _ => destruct H as [H | H]
         end; try discriminate H; try (injection H as <-; lra).
  destruct H.
Defined.

(** ** Teardown and the microphone *)

(** X21. [stopSession] clears the session, the processor and the stream and
    stops every track of the stream; called again it finds the refs as it
    left them, disconnects and stops nothing a second time, but closes both
    audio contexts again and cancels the same frame request again, since it
    keeps those refs. *)
Theorem stopSession_twice r :
  let r1 := fst (stopSession r) in
  sessionRef r1 = None /\ processorRef r1 = None /\ streamRef r1 = None /\
  (forall tracks track,
      streamRef r = Some tracks -> In track tracks ->
      In (StopTrack track) (snd (stopSession r))) /\
  fst (stopSession r1) = r1 /\
  (forall p, ~ In (Disconnect p) (snd (stopSession r1))) /\
  (forall track, ~ In (StopTrack track) (snd (stopSession r1))) /\
  (forall c, In (CloseContext c) (snd (stopSession r))
             <-> In (CloseContext c) (snd (stopSession r1))) /\
  (forall n, In (CancelAnimationFrame n) (snd (stopSession r))
             <-> In (CancelAnimationFrame n) (snd (stopSession r1))).
Proof.
  destruct r as [se pr rq st vi ic oc]. cbn zeta.
  unfold stopSession.
  cbn [fst snd sessionRef processorRef requestRef streamRef videoRef
       inputAudioCtxRef outputAudioCtxRef].
  split; [reflexivity | split; [reflexivity | split; [reflexivity |]]].
  split.
  { intros tracks track -> Hin. rewrite !in_app_iff.
    right. right. right. left. now apply in_map. }
  split; [destruct vi; reflexivity |].
  assert (Hmap : forall (e : Teardown) tracks,
             In e (map StopTrack tracks) -> exists track, e = StopTrack track).
  { intros e tracks Hin. apply in_map_iff in Hin as [track [<- _]]. eauto. }
  split; [| split; [| split]].
  - intros p. rewrite !in_app_iff. cbn [In].
    destruct rq as [[| rqn] |], ic, oc; cbn [Nat.eqb In];
      intros H; repeat destruct H as [H | H]; try discriminate H; exact H.
  - intros track. rewrite !in_app_iff. cbn [In].
    destruct rq as [[| rqn] |], ic, oc; cbn [Nat.eqb In];
      intros H; repeat destruct H as [H | H]; try discriminate H; exact H.
  - intros c. rewrite !in_app_iff. cbn [In].
    destruct pr, rq as [[| rqn] |], st, ic, oc; cbn [Nat.eqb In]; split;
      intros H; repeat destruct H as [H | H];
      try discriminate H; try (destruct H; fail);
      try (apply Hmap in H; destruct H as [track H]; discriminate H);
      tauto.
  - intros n. rewrite !in_app_iff. cbn [In].
    destruct pr, rq as [[| rqn] |], st, ic, oc; cbn [Nat.eqb In]; split;
      intros H; repeat destruct H as [H | H];
      try discriminate H; try (destruct H; fail);
      try (apply Hmap in H; destruct H as [track H]; discriminate H);
      tauto.
Qed.

(** X22. Audio reaches a session only if the microphone was on when it was
    captured and the session set then is still the one set when the send
    runs; after [stopSession] what was captured is dropped and nothing new
    is captured. *)
Theorem audio_goes_to_the_capturing_session {Blob : Type}
        isMicOn r1 r2 (pcmBlob : Blob) captured :
  onaudioprocess isMicOn r1 pcmBlob = Some captured ->
  isMicOn = true /\ sessionRef r1 = Some (fst captured) /\
  snd captured = pcmBlob /\
  (forall sent, sendRealtimeInput r2 captured = Some sent ->
                sessionRef r2 = sessionRef r1 /\ sent = pcmBlob) /\
  (sessionRef r2 = sessionRef r1 ->
   sendRealtimeInput r2 captured = Some pcmBlob) /\
  sendRealtimeInput (fst (stopSession r2)) captured = None /\
  onaudioprocess isMicOn (fst (stopSession r1)) pcmBlob = None.
Proof.
  unfold onaudioprocess, sendRealtimeInput.
  destruct isMicOn; cbn [negb]; [| discriminate].
  destruct (sessionRef r1) as [p |]; [| discriminate].
  intros H. injection H as <-. cbn [fst snd].
  repeat split.
  - destruct (sessionRef r2) as [q |]; [| discriminate H].
    destruct (Nat.eqb_spec q p); [now subst | discriminate H].
  - destruct (sessionRef r2) as [q |]; [| discriminate H].
    destruct (Nat.eqb_spec q p); [now injection H | discriminate H].
  - intros ->. now rewrite Nat.eqb_refl.
Qed.

Lemma audio_goes_to_the_capturing_session_witness :
  sendRealtimeInput (mkRefs (Some 7%nat) None None None None None None)
    (7%nat, "pcm"%string)
  = Some "pcm"%string.
Proof.
  refine (proj1 (proj2 (proj2 (proj2 (proj2
    (audio_goes_to_the_capturing_session true
       (mkRefs (Some 7%nat) None None None None None None)
       (mkRefs (Some 7%nat) None None None None None None)
       "pcm"%string (7%nat, "pcm"%string) eq_refl))))) eq_refl).
Defined.

(** ** The render and the message callback *)

(** X23. A [setParticleSpeed] call with readable arguments is applied as it
    is, and the next render shows the speed only if the call carried a
    number: with a speed that is missing or of another type the telemetry
    panel throws. *)
Theorem speed_call_decides_the_render session call s :
  name call = "setParticleSpeed"%string ->
  args call <> Js.Undefined -> args call <> Js.Null ->
  exists s',
    reduceAll s (fst (handleToolCalls session [call])) = Js.Return s' /\
    speed (App.config s') = Js.prop (args call) "speed" /\
    telemetry s'
    = match Js.prop (args call) "speed" with
      | Js.Num v =>
          Js.Return (mode (App.config s), currentGesture s, v,
                     size (App.config s))
      | _ => Js.Throw Js.TypeError
      end.
Proof.
  intros Hname Hu Hn.
  assert (Hargs : forall c, In c [call] ->
                            args c <> Js.Undefined /\ args c <> Js.Null).
  { intros c [<- | []]. now split. }
  destruct (reduceAll_tool_calls session [call] Hargs) as [grow Hgrow].
  eexists. split; [apply Hgrow |].
  cbn [fold_left]. rewrite Hname. cbn [String.eqb Ascii.eqb Bool.eqb].
  split; [reflexivity |].
  unfold telemetry. cbn [App.config speed mode size currentGesture].
  destruct (Js.prop (args call) "speed"); reflexivity.
Qed.

Lemma speed_call_decides_the_render_witness :
  exists s',
    reduceAll (mkApp initialConfig "None" [])
      (fst (handleToolCalls true
              [mkCall "setParticleSpeed" (Js.Obj []) (Js.Str "a")]))
    = Js.Return s' /\
    telemetry s' = Js.Throw Js.TypeError.
Proof.
  destruct (speed_call_decides_the_render true
              (mkCall "setParticleSpeed" (Js.Obj []) (Js.Str "a"))
              (mkApp initialConfig "None" []) eq_refl)
    as (s' & Hrun & _ & Htel).
  - discriminate.
  - discriminate.
  - exists s'. split; [exact Hrun | exact Htel].
Defined.

(** X24. On a message with a tool call the callback logs the command names,
    joined by ", ", before anything else, then handles the calls; if that
    throws, the callback throws and the audio of the message is not played.
    Audio is handed to the player only when it is a non-empty string and
    the output context is set. *)
Theorem onmessage_order_and_audio session outputCtx message :
  (forall calls,
      toolCall message = Some calls ->
      fst (onmessage session outputCtx message)
      = AddLog (mkLog (("Voice Cmd: "
                        ++ String.concat ", " (map name calls))%string,
                       None) "gemini")
        :: fst (handleToolCalls session calls)) /\
  (forall calls e,
      toolCall message = Some calls ->
      snd (handleToolCalls session calls) = Js.Throw e ->
      snd (onmessage session outputCtx message) = Js.Throw e) /\
  (forall data,
      snd (onmessage session outputCtx message) = Js.Return (Some data) ->
      base64Audio message = Js.Return (Some data) /\
      data <> ""%string /\ outputCtx = true).
Proof.
  unfold onmessage. split; [| split].
  - intros calls ->. cbn [bind emit app].
    destruct (handleToolCalls session calls) as [es [[] | e]];
      cbn [fst snd bind app].
    + destruct (base64Audio message) as [[data |] | e];
        cbn [lift bind ret fst app];
        try destruct (negb (String.eqb data "") && outputCtx);
        cbn [ret fst app]; now rewrite ?app_nil_r.
    + reflexivity.
  - intros calls e -> Hthrow. cbn [bind emit app].
    destruct (handleToolCalls session calls) as [es c]. cbn [snd] in Hthrow.
    subst c. reflexivity.
  - intros data.
    destruct (toolCall message) as [calls |].
    + cbn [bind emit app].
      destruct (handleToolCalls session calls) as [es [[] | e]];
        cbn [snd bind app]; [| discriminate].
      destruct (base64Audio message) as [[d |] | e];
        cbn [lift bind ret snd]; try discriminate.
      destruct (String.eqb_spec d ""), outputCtx; cbn [negb andb ret snd];
        intros H; try discriminate H.
      injection H as <-. repeat split. assumption.
    + cbn [bind ret app].
      destruct (base64Audio message) as [[d |] | e];
        cbn [lift bind ret snd]; try discriminate.
      destruct (String.eqb_spec d ""), outputCtx; cbn [negb andb ret snd];
        intros H; try discriminate H.
      injection H as <-. repeat split. assumption.
Qed.

Lemma onmessage_order_and_audio_witness :
  snd (onmessage true true
         (mkMessage
            (Some [mkCall "setParticleColor" Js.Undefined (Js.Str "a")])
            (Some (mkServerContent
                     (Some (mkContent
                              (Some [mkPart (Some (Some "AAAA"%string))])))))))
  = Js.Throw Js.TypeError.
Proof.
  refine (proj1 (proj2
    (onmessage_order_and_audio true true
       (mkMessage
          (Some [mkCall "setParticleColor" Js.Undefined (Js.Str "a")])
          (Some (mkServerContent
                   (Some (mkContent
                            (Some [mkPart (Some (Some "AAAA"%string))]))))))))
    [mkCall "setParticleColor" Js.Undefined (Js.Str "a")] Js.TypeError
    eq_refl eq_refl).
Defined.

End AppCoverage.
